(** * The MicroPython component's event bridge

    Source: components/micropython/micropython.c.

    A shallow embedding of the two-cothread scheduler of the component:
    [init], [notified], [await] and [t_mp_entrypoint], with the two global
    bitmasks [active_events] and [mp_blocking_events].

    The component runs on one thread shared by two libco cothreads,
    [t_event] and [t_mp].  A C function that calls [co_switch] is cut at
    that call: the part before the call runs, the cothread's frame records
    where it stopped, and the part after the call runs when the cothread is
    switched to again.  Calls into collaborators (the interpreter, lwIP, the
    filesystem client, printf) are recorded in a trace. *)

From Stdlib Require Import String ZArith List Bool Lia.
Import ListNotations.
Local Open Scope Z_scope.

(** ** Build configuration and header constants *)

(** The preprocessor symbols the file tests with #ifdef / #ifndef. *)
Record Build : Type := mkBuild {
  EXEC_MODULE : option string;
  ENABLE_I2C : bool;
  ENABLE_FRAMEBUFFER : bool;
  NDEBUG : bool
}.

(** The constants that micropython.c takes from its headers (micropython.h,
    sddf/serial/queue.h) and the addresses the loader patches in.  They are
    parameters of the development. *)
Record Config : Type := mkConfig {
  SERIAL_RX_CH : Z;
  TIMER_CH : Z;
  FRAMEBUFFER_VMM_CH : Z;
  NFS_CH : Z;
  I2C_CH : Z;
  ETH_RX_CH : Z;
  ETH_TX_CH : Z;
  mp_event_source_serial : Z;
  mp_event_source_timer : Z;
  mp_event_source_framebuffer : Z;
  mp_event_source_nfs : Z;
  mp_event_source_i2c : Z;
  NUM_ENTRIES : Z;
  BUFFER_SIZE : Z;
  serial_rx_data : Z;
  serial_tx_data : Z
}.

(** Modelled from the spec: micropython.h, which declares the enumeration of
    event sources, is not part of the sources at hand.  The spec calls both
    globals bitmasks and speaks of an empty Awaited-Event, so the tag
    [mp_event_source_none] is the empty mask. *)
Definition mp_event_source_none : Z := 0.

(** ** The serial queue handle *)

(** Modelled from the spec: sddf/serial/queue.h is not part of the sources
    at hand.  A ring is a bounded FIFO of (buffer, length) descriptors;
    [enqueue] fails with Queue-Full when the ring is at capacity and then
    leaves the ring as it was. *)
Module SerialQueue.

Record desc : Type := mkDesc { buffer : Z; len : Z }.

Record ring : Type := mkRing { capacity : nat; slots : list desc }.

Record handle : Type := mkHandle { free : ring; active : ring }.

Definition full (r : ring) : bool := (capacity r <=? length (slots r))%nat.

Definition enqueue (r : ring) (d : desc) : option ring :=
  if full r then None else Some (mkRing (capacity r) (slots r ++ [d])).

Definition dequeue (r : ring) : option (desc * ring) :=
  match slots r with
  | [] => None
  | d :: rest => Some (d, mkRing (capacity r) rest)
  end.

(** The status is what the C function returns: 0 on success, -1 on
    Queue-Full. *)
Definition serial_enqueue_free (h : handle) (b l : Z) : Z * handle :=
  match enqueue (free h) (mkDesc b l) with
  | Some r => (0, mkHandle r (active h))
  | None => (-1, h)
  end.

Definition empty_ring (cap : nat) : ring := mkRing cap [].

Definition empty_handle (cap : nat) : handle :=
  mkHandle (empty_ring cap) (empty_ring cap).

End SerialQueue.

(** ** Cothreads, frames and the trace *)

(** The two cothread handles of the component. *)
Inductive cothread_t : Type := t_event | t_mp.

Inductive queue_name : Type := rx_queue | tx_queue.

(** The statements of [t_mp_entrypoint], in source order.  Each is a call
    into a collaborator; the cothread is "at" a statement while that call
    runs. *)
Inductive entry_stmt : Type :=
| at_printf_initialising
| at_mp_stack_ctrl_init
| at_gc_init
| at_mp_init
| at_init_nfs
| at_init_networking
| at_pyexec
| at_gc_sweep_all
| at_mp_deinit
| at_printf_exited.

(** Calls that leave the component, and the context switches, in the order
    they happen. *)
Inductive effect : Type :=
| call_serial_queue_init (q : queue_name) (buffer_init : bool)
                         (free_size active_size : Z)
| call_serial_enqueue_free (q : queue_name) (buffer len : Z)
| call_i2c_queue_init
| call_co_active
| call_co_derive
| call_co_switch (target : cothread_t)
| call_process_rx
| call_pyb_lwip_poll
| call_fs_process_completions
| printf_unexpected_notification (ch : Z)
| call_mpnet_handle_notify
| assertion_failure
| printf_initialising
| call_mp_stack_ctrl_init
| call_gc_init
| call_mp_init
| call_init_nfs
| call_init_networking
| call_pyexec_friendly_repl
| call_pyexec_frozen_module (module : string)
| call_gc_sweep_all
| call_mp_deinit
| printf_exited.

(** Where the event cothread stands: before [init], stopped at the
    [co_switch (t_mp)] of [init] or of [notified], or back in the microkit
    event loop waiting for the next notification. *)
Inductive event_frame : Type :=
| ev_power_on
| ev_in_init
| ev_in_notified
| ev_idle.

(** Where the interpreter cothread stands: not yet derived or entered,
    inside a collaborator call of the entry routine, stopped at the
    [co_switch (t_event)] of an [await] issued during such a call, or stopped
    at the final [co_switch (t_event)] of the entry routine. *)
Inductive mp_frame : Type :=
| mp_fresh
| mp_in (s : entry_stmt)
| mp_in_await (s : entry_stmt) (event_source : Z)
| mp_final.

Record State : Type := mkState {
  active_events : Z;
  mp_blocking_events : Z;
  co_current : cothread_t;
  ev_frame : event_frame;
  interp_frame : mp_frame;
  serial_rx_queue : SerialQueue.handle;
  serial_tx_queue : SerialQueue.handle;
  halted : bool;
  trace : list effect
}.

Definition set_active_events (v : Z) (st : State) : State :=
  mkState v (mp_blocking_events st) (co_current st) (ev_frame st)
          (interp_frame st) (serial_rx_queue st) (serial_tx_queue st)
          (halted st) (trace st).

Definition set_mp_blocking_events (v : Z) (st : State) : State :=
  mkState (active_events st) v (co_current st) (ev_frame st)
          (interp_frame st) (serial_rx_queue st) (serial_tx_queue st)
          (halted st) (trace st).

Definition set_co_current (c : cothread_t) (st : State) : State :=
  mkState (active_events st) (mp_blocking_events st) c (ev_frame st)
          (interp_frame st) (serial_rx_queue st) (serial_tx_queue st)
          (halted st) (trace st).

Definition set_ev_frame (f : event_frame) (st : State) : State :=
  mkState (active_events st) (mp_blocking_events st) (co_current st) f
          (interp_frame st) (serial_rx_queue st) (serial_tx_queue st)
          (halted st) (trace st).

Definition set_interp_frame (f : mp_frame) (st : State) : State :=
  mkState (active_events st) (mp_blocking_events st) (co_current st)
          (ev_frame st) f (serial_rx_queue st) (serial_tx_queue st)
          (halted st) (trace st).

Definition set_queue (q : queue_name) (h : SerialQueue.handle) (st : State)
  : State :=
  match q with
  | rx_queue =>
      mkState (active_events st) (mp_blocking_events st) (co_current st)
              (ev_frame st) (interp_frame st) h (serial_tx_queue st)
              (halted st) (trace st)
  | tx_queue =>
      mkState (active_events st) (mp_blocking_events st) (co_current st)
              (ev_frame st) (interp_frame st) (serial_rx_queue st) h
              (halted st) (trace st)
  end.

Definition get_queue (q : queue_name) (st : State) : SerialQueue.handle :=
  match q with
  | rx_queue => serial_rx_queue st
  | tx_queue => serial_tx_queue st
  end.

Definition set_halted (st : State) : State :=
  mkState (active_events st) (mp_blocking_events st) (co_current st)
          (ev_frame st) (interp_frame st) (serial_rx_queue st)
          (serial_tx_queue st) true (trace st).

(** Record one effect at the end of the trace.  The collaborators behind
    these calls are outside the component.  Modelled from the spec: they do
    not write [active_events] or [mp_blocking_events], which are mutated
    only by [notified] and [await]. *)
Definition emit (e : effect) (st : State) : State :=
  mkState (active_events st) (mp_blocking_events st) (co_current st)
          (ev_frame st) (interp_frame st) (serial_rx_queue st)
          (serial_tx_queue st) (halted st) (trace st ++ [e]).

(** The component as loaded: both globals initialised to
    [mp_event_source_none], [init] not yet called.  The rings live in memory
    shared with the serial multiplexers and are taken as found. *)
Definition power_on (rxq txq : SerialQueue.handle) : State :=
  mkState mp_event_source_none mp_event_source_none t_event ev_power_on
          mp_fresh rxq txq false [].

(** What a call of a function that may switch cothreads comes to: it
    returned to its caller, it stopped at a [co_switch], or it ended in
    [__assert_func], which never returns. *)
Inductive outcome : Type :=
| Returned (st : State)
| Yielded (st : State)
| Fatal (st : State).

(** What the surrounding system and the collaborators can do to the
    component: the microkit runtime calls [init] once and then [notified]
    for every notification; code running on the interpreter cothread calls
    [await], and the collaborator call of the entry routine that is in
    progress returns. *)
Inductive input : Type :=
| microkit_init
| microkit_notified (ch : Z)
| interp_await (event_source : Z)
| interp_return.

(** The same build with NDEBUG defined or not. *)
Definition with_NDEBUG (v : bool) (b : Build) : Build :=
  mkBuild (EXEC_MODULE b) (ENABLE_I2C b) (ENABLE_FRAMEBUFFER b) v.

(** ** Sample builds and a sample board configuration

    Concrete values on which the theorems below are exercised: single-bit
    event sources, pairwise different channels, rings of four entries. *)

Definition repl_build : Build := mkBuild None false false false.

Definition frozen_build : Build := mkBuild (Some "main"%string) true true false.

Definition sample_cfg : Config :=
  {| SERIAL_RX_CH := 8; TIMER_CH := 1; FRAMEBUFFER_VMM_CH := 0; NFS_CH := 7;
     I2C_CH := 10; ETH_RX_CH := 2; ETH_TX_CH := 3;
     mp_event_source_serial := 2; mp_event_source_timer := 1;
     mp_event_source_framebuffer := 8; mp_event_source_nfs := 4;
     mp_event_source_i2c := 16;
     NUM_ENTRIES := 4; BUFFER_SIZE := 2048;
     serial_rx_data := 0x2400000; serial_tx_data := 0x2200000 |}.

Definition sample_power_on : State :=
  power_on (SerialQueue.empty_handle 4) (SerialQueue.empty_handle 4).

(** The interpreter in its main loop with the serial event pending, and
    the interpreter stopped in [await] on the timer with the serial event
    pending. *)
Definition sample_running : State :=
  mkState 2 0 t_mp ev_in_notified (mp_in at_pyexec)
          (SerialQueue.empty_handle 4) (SerialQueue.empty_handle 4) false [].

Definition sample_waiting : State :=
  mkState 2 1 t_event ev_idle (mp_in_await at_pyexec 1)
          (SerialQueue.empty_handle 4) (SerialQueue.empty_handle 4) false [].

(** Inputs that lead from power-on to a state like [sample_waiting]: the
    interpreter starts, waits for the timer, and a serial notification
    arrives. *)
Definition sample_inputs : list input :=
  [microkit_init; interp_await 1; microkit_notified 8].

(** A longer session: the interpreter starts, waits for the timer, is
    woken by it after a serial notification, consumes the serial event and
    then waits for the NFS event. *)
Definition sample_session : list input :=
  [microkit_init; interp_return; interp_await 1; microkit_notified 8;
   microkit_notified 1; interp_await 2; interp_await 4].

(** ** The component *)

Section Component.

Variable build : Build.
Variable cfg : Config.

(** An int used as a C condition. *)
Definition truthy (v : Z) : bool := negb (v =? 0).

(** [co_switch (target)]: the target cothread becomes the running one. *)
Definition co_switch (target : cothread_t) (st : State) : State :=
  emit (call_co_switch target) (set_co_current target st).

(** *** await

    [active_events] and [event_source] are C ints; on two's complement
    [&], [|] and [~] are [Z.land], [Z.lor] and [Z.lnot] and cannot
    overflow. *)

(** Lines 54-59: from the call up to [co_switch (t_event)]. *)
Definition await_enter (event_source : Z) (st : State) : outcome :=
  if truthy (Z.land (active_events st) event_source) then
    Returned (set_active_events
                (Z.land (active_events st) (Z.lnot event_source)) st)
  else
    Yielded (co_switch t_event (set_mp_blocking_events event_source st)).

(** Lines 60-62: from the return of [co_switch] to the end.  A failed
    assertion enters [__assert_func], which prints and spins forever;
    with NDEBUG the assertion is compiled out. *)
Definition await_resume (event_source : Z) (st : State) : outcome :=
  if negb (NDEBUG build)
     && negb (truthy (Z.land (active_events st) event_source))
  then Fatal (set_halted (emit assertion_failure st))
  else
    let st := set_mp_blocking_events mp_event_source_none st in
    Returned (set_active_events
                (Z.land (active_events st) (Z.lnot event_source)) st).

(** *** t_mp_entrypoint *)

Definition stmt_effect (s : entry_stmt) : effect :=
  match s with
  | at_printf_initialising => printf_initialising
  | at_mp_stack_ctrl_init => call_mp_stack_ctrl_init
  | at_gc_init => call_gc_init
  | at_mp_init => call_mp_init
  | at_init_nfs => call_init_nfs
  | at_init_networking => call_init_networking
  | at_pyexec =>
      match EXEC_MODULE build with
      | None => call_pyexec_friendly_repl
      | Some m => call_pyexec_frozen_module m
      end
  | at_gc_sweep_all => call_gc_sweep_all
  | at_mp_deinit => call_mp_deinit
  | at_printf_exited => printf_exited
  end.

(** Begin the call of statement [s]. *)
Definition enter_stmt (s : entry_stmt) (st : State) : State :=
  set_interp_frame (mp_in s) (emit (stmt_effect s) st).

(** The cothread is entered for the first time. *)
Definition t_mp_entrypoint (st : State) : State :=
  enter_stmt at_printf_initialising st.

(** The call of statement [s] has returned: go on with what follows it in
    the source.  After the last printf the REPL build jumps back to
    [start_repl]; the frozen-module build falls through to
    [co_switch (t_event)]. *)
Definition t_mp_entrypoint_after (s : entry_stmt) (st : State) : outcome :=
  match s with
  | at_printf_initialising => Returned (enter_stmt at_mp_stack_ctrl_init st)
  | at_mp_stack_ctrl_init => Returned (enter_stmt at_gc_init st)
  | at_gc_init => Returned (enter_stmt at_mp_init st)
  | at_mp_init => Returned (enter_stmt at_init_nfs st)
  | at_init_nfs => Returned (enter_stmt at_init_networking st)
  | at_init_networking => Returned (enter_stmt at_pyexec st)
  | at_pyexec => Returned (enter_stmt at_gc_sweep_all st)
  | at_gc_sweep_all => Returned (enter_stmt at_mp_deinit st)
  | at_mp_deinit => Returned (enter_stmt at_printf_exited st)
  | at_printf_exited =>
      match EXEC_MODULE build with
      | None => Returned (enter_stmt at_mp_stack_ctrl_init st)
      | Some _ => Yielded (co_switch t_event (set_interp_frame mp_final st))
      end
  end.

(** *** Resuming a cothread *)

(** The event cothread goes on after the [co_switch (t_mp)] it stopped
    at: [init] returns to the microkit event loop; [notified] calls
    [mpnet_handle_notify] and returns. *)
Definition resume_event (st : State) : option State :=
  match ev_frame st with
  | ev_in_init => Some (set_ev_frame ev_idle st)
  | ev_in_notified =>
      Some (set_ev_frame ev_idle (emit call_mpnet_handle_notify st))
  | ev_power_on | ev_idle => None
  end.

(** The interpreter cothread goes on: at its entry point the first time,
    afterwards behind the [co_switch (t_event)] of the pending [await].
    Switching to a cothread whose entry routine has run to its end is
    undefined in libco. *)
Definition resume_mp (st : State) : option State :=
  match interp_frame st with
  | mp_fresh => Some (t_mp_entrypoint st)
  | mp_in_await s event_source =>
      match await_resume event_source st with
      | Returned st' => Some (set_interp_frame (mp_in s) st')
      | Fatal st' => Some st'
      | Yielded _ => None
      end
  | mp_in _ | mp_final => None
  end.

(** *** init *)

(** Modelled from the spec: sddf/serial/queue.h is not part of the sources
    at hand.  The call binds the handle to the two rings in shared memory;
    it is recorded with its arguments, and the rings are taken as they are
    found. *)
Definition serial_queue_init (q : queue_name) (buffer_init : bool)
           (free_size active_size : Z) (st : State) : State :=
  emit (call_serial_queue_init q buffer_init free_size active_size) st.

(** The status that sDDF returns is dropped by the caller. *)
Definition serial_enqueue_free (q : queue_name) (b l : Z) (st : State)
  : State :=
  let '(_, h) := SerialQueue.serial_enqueue_free (get_queue q st) b l in
  emit (call_serial_enqueue_free q b l) (set_queue q h st).

(** The values the loop variable takes:
    for (int i = 0; i < NUM_ENTRIES - 1; i++). *)
Definition seed_indices : list Z :=
  map Z.of_nat (seq 0 (Z.to_nat (NUM_ENTRIES cfg - 1))).

(** The address of slot [i].  The product is an int expression and the sum
    is taken in uintptr_t; the product is modelled exactly as long as it
    stays within int (beyond that the C expression is undefined). *)
Definition seed_buffer (data i : Z) : Z :=
  (data + (i + NUM_ENTRIES cfg) * BUFFER_SIZE cfg) mod 2 ^ 64.

Definition seed_free_ring (q : queue_name) (data : Z) (st : State) : State :=
  fold_left
    (fun st i =>
       serial_enqueue_free q (seed_buffer data i) (BUFFER_SIZE cfg) st)
    seed_indices st.

Definition init (st : State) : option State :=
  let st := serial_queue_init rx_queue false (BUFFER_SIZE cfg)
              (BUFFER_SIZE cfg) st in
  let st := seed_free_ring rx_queue (serial_rx_data cfg) st in
  let st := serial_queue_init tx_queue false (BUFFER_SIZE cfg)
              (BUFFER_SIZE cfg) st in
  let st := seed_free_ring tx_queue (serial_tx_data cfg) st in
  let st := if ENABLE_I2C build then emit call_i2c_queue_init st else st in
  let st := emit call_co_active st in
  let st := set_interp_frame mp_fresh (emit call_co_derive st) in
  resume_mp (co_switch t_mp (set_ev_frame ev_in_init st)).

(** *** notified *)

Definition raise_event (event_source : Z) (st : State) : State :=
  set_active_events (Z.lor (active_events st) event_source) st.

(** The switch statement, lines 160-188; the cases under #ifdef exist
    only in builds that define the symbol. *)
Definition notified_switch (ch : Z) (st : State) : State :=
  if ch =? SERIAL_RX_CH cfg then
    raise_event (mp_event_source_serial cfg) st
  else if ch =? TIMER_CH cfg then
    raise_event (mp_event_source_timer cfg) st
  else if ENABLE_FRAMEBUFFER build && (ch =? FRAMEBUFFER_VMM_CH cfg) then
    raise_event (mp_event_source_framebuffer cfg) st
  else if ch =? NFS_CH cfg then
    raise_event (mp_event_source_nfs cfg) st
  else if ENABLE_I2C build && (ch =? I2C_CH cfg) then
    raise_event (mp_event_source_i2c cfg) st
  else if (ch =? ETH_RX_CH cfg) || (ch =? ETH_TX_CH cfg) then
    st
  else
    emit (printf_unexpected_notification ch) st.

(** Lines 156-191: the pumps, the switch and the decision to resume the
    interpreter. *)
Definition notified_enter (ch : Z) (st : State) : outcome :=
  let st := emit call_process_rx st in
  let st := emit call_pyb_lwip_poll st in
  let st := emit call_fs_process_completions st in
  let st := notified_switch ch st in
  if truthy (Z.land (active_events st) (mp_blocking_events st)) then
    Yielded (co_switch t_mp (set_ev_frame ev_in_notified st))
  else
    Returned (emit call_mpnet_handle_notify st).

Definition notified (ch : Z) (st : State) : option State :=
  match notified_enter ch st with
  | Yielded st' => resume_mp st'
  | Returned st' => Some st'
  | Fatal _ => None
  end.

(** *** One move of the system *)

(** [None]: the input cannot happen in this state.  Notifications are
    delivered only while the event cothread sits in the microkit loop;
    interpreter code runs only while [t_mp] is the running cothread;
    nothing happens once the process spins in [__assert_func]. *)
Definition step (i : input) (st : State) : option State :=
  if halted st then None
  else
    match i, co_current st, ev_frame st, interp_frame st with
    | microkit_init, t_event, ev_power_on, _ => init st
    | microkit_notified ch, t_event, ev_idle, _ => notified ch st
    | interp_await event_source, t_mp, _, mp_in s =>
        match await_enter event_source st with
        | Returned st' => Some st'
        | Yielded st' =>
            resume_event (set_interp_frame (mp_in_await s event_source) st')
        | Fatal _ => None
        end
    | interp_return, t_mp, _, mp_in s =>
        match t_mp_entrypoint_after s st with
        | Returned st' => Some st'
        | Yielded st' => resume_event st'
        | Fatal _ => None
        end
    | _, _, _, _ => None
    end.

Fixpoint run (ins : list input) (st : State) : option State :=
  match ins with
  | [] => Some st
  | i :: rest =>
      match step i st with
      | Some st' => run rest st'
      | None => None
      end
  end.

(** *** Derived notions used by the statements *)

(** The table the switch of [notified] implements: the event source a
    channel raises, if any. *)
Definition channel_source (ch : Z) : option Z :=
  if ch =? SERIAL_RX_CH cfg then Some (mp_event_source_serial cfg)
  else if ch =? TIMER_CH cfg then Some (mp_event_source_timer cfg)
  else if ENABLE_FRAMEBUFFER build && (ch =? FRAMEBUFFER_VMM_CH cfg)
       then Some (mp_event_source_framebuffer cfg)
  else if ch =? NFS_CH cfg then Some (mp_event_source_nfs cfg)
  else if ENABLE_I2C build && (ch =? I2C_CH cfg)
       then Some (mp_event_source_i2c cfg)
  else None.

(** The case labels of the switch in this build, in source order. *)
Definition case_labels : list Z :=
  [SERIAL_RX_CH cfg; TIMER_CH cfg]
    ++ (if ENABLE_FRAMEBUFFER build then [FRAMEBUFFER_VMM_CH cfg] else [])
    ++ [NFS_CH cfg]
    ++ (if ENABLE_I2C build then [I2C_CH cfg] else [])
    ++ [ETH_RX_CH cfg; ETH_TX_CH cfg].

(** What holds of the two cothreads and of [mp_blocking_events] whenever
    the system is between two moves. *)
Definition consistent (st : State) : Prop :=
  halted st = false /\
  match interp_frame st with
  | mp_fresh =>
      co_current st = t_event /\ ev_frame st = ev_power_on /\
      mp_blocking_events st = mp_event_source_none
  | mp_in _ =>
      co_current st = t_mp /\
      (ev_frame st = ev_in_init \/ ev_frame st = ev_in_notified) /\
      mp_blocking_events st = mp_event_source_none
  | mp_in_await _ event_source =>
      co_current st = t_event /\ ev_frame st = ev_idle /\
      mp_blocking_events st = event_source /\
      Z.land (active_events st) event_source = 0
  | mp_final =>
      co_current st = t_event /\ ev_frame st = ev_idle /\
      mp_blocking_events st = mp_event_source_none /\
      EXEC_MODULE build <> None
  end.

(** The interpreter cothread is stopped inside [await]. *)
Definition suspended_in_await (st : State) : Prop :=
  co_current st = t_event /\
  exists s, interp_frame st = mp_in_await s (mp_blocking_events st).

(** The pending [await], if there is one, does not wait for bit [i]. *)
Definition not_waiting_for (i : Z) (st : State) : Prop :=
  match interp_frame st with
  | mp_in_await _ event_source => Z.testbit event_source i = false
  | _ => True
  end.

(** No [await] among the inputs names bit [i]. *)
Definition never_awaits (i : Z) (ins : list input) : Prop :=
  forall event_source,
    In (interp_await event_source) ins -> Z.testbit event_source i = false.

Definition is_enqueue_free (q : queue_name) (e : effect) : bool :=
  match e, q with
  | call_serial_enqueue_free rx_queue _ _, rx_queue => true
  | call_serial_enqueue_free tx_queue _ _, tx_queue => true
  | _, _ => false
  end.

(** The calls [notified] makes. *)
Definition is_notified_effect (e : effect) : bool :=
  match e with
  | call_process_rx | call_pyb_lwip_poll | call_fs_process_completions
  | printf_unexpected_notification _ | call_mpnet_handle_notify => true
  | _ => false
  end.

Definition is_pyexec (e : effect) : bool :=
  match e with
  | call_pyexec_friendly_repl | call_pyexec_frozen_module _ => true
  | _ => false
  end.

(** The fields of the state that the event bridge proper owns; the
    rings and the trace are left out. *)
Definition control (st : State)
  : Z * Z * cothread_t * event_frame * mp_frame * bool :=
  (active_events st, mp_blocking_events st, co_current st, ev_frame st,
   interp_frame st, halted st).

(** The state [init] has built when it reaches its [co_switch (t_mp)]. *)
Definition init_before_switch (st : State) : State :=
  let st := serial_queue_init rx_queue false (BUFFER_SIZE cfg)
              (BUFFER_SIZE cfg) st in
  let st := seed_free_ring rx_queue (serial_rx_data cfg) st in
  let st := serial_queue_init tx_queue false (BUFFER_SIZE cfg)
              (BUFFER_SIZE cfg) st in
  let st := seed_free_ring tx_queue (serial_tx_data cfg) st in
  let st := if ENABLE_I2C build then emit call_i2c_queue_init st else st in
  let st := emit call_co_active st in
  set_interp_frame mp_fresh (emit call_co_derive st).

(** The three pumps change nothing but the trace. *)
Definition pumped (st : State) : State :=
  emit call_fs_process_completions
    (emit call_pyb_lwip_poll (emit call_process_rx st)).

(** The interpreter cothread runs, inside the call of statement [pc]. *)
Definition running (pc : entry_stmt) (st : State) : Prop :=
  halted st = false /\ co_current st = t_mp /\ interp_frame st = mp_in pc.

(** The event cothread sits in the microkit loop. *)
Definition idle (st : State) : Prop :=
  halted st = false /\ co_current st = t_event /\ ev_frame st = ev_idle.

(** The event cothread is stopped at a [co_switch (t_mp)]. *)
Definition event_stopped (st : State) : Prop :=
  ev_frame st = ev_in_init \/ ev_frame st = ev_in_notified.

(** What [resume_event] yields when the event cothread is stopped at a
    [co_switch (t_mp)]. *)
Definition event_resumed (st : State) : State :=
  match ev_frame st with
  | ev_in_notified => set_ev_frame ev_idle (emit call_mpnet_handle_notify st)
  | _ => set_ev_frame ev_idle st
  end.

(** The statement of the entry routine that follows [pc]; [None] when
    what follows is the final [co_switch (t_event)]. *)
Definition next_stmt (pc : entry_stmt) : option entry_stmt :=
  match pc with
  | at_printf_initialising => Some at_mp_stack_ctrl_init
  | at_mp_stack_ctrl_init => Some at_gc_init
  | at_gc_init => Some at_mp_init
  | at_mp_init => Some at_init_nfs
  | at_init_nfs => Some at_init_networking
  | at_init_networking => Some at_pyexec
  | at_pyexec => Some at_gc_sweep_all
  | at_gc_sweep_all => Some at_mp_deinit
  | at_mp_deinit => Some at_printf_exited
  | at_printf_exited =>
      match EXEC_MODULE build with
      | None => Some at_mp_stack_ctrl_init
      | Some _ => None
      end
  end.

(** The moves of [step], one constructor for each way through the code. *)
Inductive moves : input -> State -> State -> Prop :=
| moves_init st :
    halted st = false -> co_current st = t_event ->
    ev_frame st = ev_power_on ->
    moves microkit_init st
      (enter_stmt at_printf_initialising
         (co_switch t_mp (set_ev_frame ev_in_init (init_before_switch st))))
| moves_notified_return ch st st1 :
    idle st -> st1 = notified_switch ch (pumped st) ->
    Z.land (active_events st1) (mp_blocking_events st1) = 0 ->
    moves (microkit_notified ch) st (emit call_mpnet_handle_notify st1)
| moves_notified_resume ch st st1 pc s :
    idle st -> st1 = notified_switch ch (pumped st) ->
    Z.land (active_events st1) (mp_blocking_events st1) <> 0 ->
    interp_frame st = mp_in_await pc s ->
    NDEBUG build = true \/ Z.land (active_events st1) s <> 0 ->
    moves (microkit_notified ch) st
      (set_interp_frame (mp_in pc)
         (set_active_events (Z.land (active_events st1) (Z.lnot s))
            (set_mp_blocking_events mp_event_source_none
               (co_switch t_mp (set_ev_frame ev_in_notified st1)))))
| moves_notified_assert ch st st1 pc s :
    idle st -> st1 = notified_switch ch (pumped st) ->
    Z.land (active_events st1) (mp_blocking_events st1) <> 0 ->
    interp_frame st = mp_in_await pc s ->
    NDEBUG build = false -> Z.land (active_events st1) s = 0 ->
    moves (microkit_notified ch) st
      (set_halted
         (emit assertion_failure
            (co_switch t_mp (set_ev_frame ev_in_notified st1))))
| moves_notified_enter ch st st1 :
    idle st -> st1 = notified_switch ch (pumped st) ->
    Z.land (active_events st1) (mp_blocking_events st1) <> 0 ->
    interp_frame st = mp_fresh ->
    moves (microkit_notified ch) st
      (t_mp_entrypoint (co_switch t_mp (set_ev_frame ev_in_notified st1)))
| moves_await_fast s pc st :
    running pc st -> Z.land (active_events st) s <> 0 ->
    moves (interp_await s) st
      (set_active_events (Z.land (active_events st) (Z.lnot s)) st)
| moves_await_yield s pc st :
    running pc st -> Z.land (active_events st) s = 0 ->
    event_stopped st ->
    moves (interp_await s) st
      (event_resumed
         (set_interp_frame (mp_in_await pc s)
            (co_switch t_event (set_mp_blocking_events s st))))
| moves_return_next pc pc' st :
    running pc st -> next_stmt pc = Some pc' ->
    moves interp_return st (enter_stmt pc' st)
| moves_return_final pc st :
    running pc st -> next_stmt pc = None -> event_stopped st ->
    moves interp_return st
      (event_resumed (co_switch t_event (set_interp_frame mp_final st))).

(** The interpreter is stopped in [await s], issued during the call of
    [pc], and the event cothread waits for notifications. *)
Definition waiting (pc : entry_stmt) (s : Z) (st : State) : Prop :=
  idle st /\ interp_frame st = mp_in_await pc s /\
  mp_blocking_events st = s /\ Z.land (active_events st) s = 0.

(** The channel is one of the case labels of the switch. *)
Definition known_channel (ch : Z) : bool :=
  match channel_source ch with
  | Some _ => true
  | None => (ch =? ETH_RX_CH cfg) || (ch =? ETH_TX_CH cfg)
  end.

(** The channel raises no bit of the source [s]. *)
Definition unrelated (s : Z) (ch : Z) : Prop :=
  forall s', channel_source ch = Some s' -> Z.land s' s = 0.

(** The trace that [notified] leaves before it decides whether to
    resume the interpreter. *)
Definition notified_prefix (ch : Z) : list effect :=
  [call_process_rx; call_pyb_lwip_poll; call_fs_process_completions]
    ++ (if known_channel ch then []
        else [printf_unexpected_notification ch]).

(** No call of [notified]'s own is in the list. *)
Definition no_notified_effect (l : list effect) : Prop :=
  forallb (fun e => negb (is_notified_effect e)) l = true.

(** No notification is among the inputs. *)
Definition interpreter_only (ins : list input) : Prop :=
  forall ch, ~ In (microkit_notified ch) ins.

(** The call that seeds slot [i] of ring [q], and the descriptor it
    leaves in the free ring. *)
Definition seed_call (q : queue_name) (data i : Z) : effect :=
  call_serial_enqueue_free q (seed_buffer data i) (BUFFER_SIZE cfg).

Definition seed_desc (data i : Z) : SerialQueue.desc :=
  SerialQueue.mkDesc (seed_buffer data i) (BUFFER_SIZE cfg).

(** Everything [init] does before it enters the interpreter. *)
Definition init_trace : list effect :=
  [call_serial_queue_init rx_queue false (BUFFER_SIZE cfg) (BUFFER_SIZE cfg)]
    ++ map (seed_call rx_queue (serial_rx_data cfg)) seed_indices
    ++ [call_serial_queue_init tx_queue false (BUFFER_SIZE cfg)
          (BUFFER_SIZE cfg)]
    ++ map (seed_call tx_queue (serial_tx_data cfg)) seed_indices
    ++ (if ENABLE_I2C build then [call_i2c_queue_init] else [])
    ++ [call_co_active; call_co_derive; call_co_switch t_mp].

Definition free_slots (q : queue_name) (st : State)
  : list SerialQueue.desc :=
  SerialQueue.slots (SerialQueue.free (get_queue q st)).

Definition free_capacity (q : queue_name) (st : State) : nat :=
  SerialQueue.capacity (SerialQueue.free (get_queue q st)).

Definition other_queue (q : queue_name) : queue_name :=
  match q with
  | rx_queue => tx_queue
  | tx_queue => rx_queue
  end.

Definition pyexec_calls (t : list effect) : nat :=
  List.length (filter is_pyexec t).

(** How often the entry routine has reached its pyexec call when it runs
    straight through once. *)
Definition pyexec_reached (f : mp_frame) : nat :=
  match f with
  | mp_fresh => 0%nat
  | mp_in pc | mp_in_await pc _ =>
      match pc with
      | at_printf_initialising | at_mp_stack_ctrl_init | at_gc_init
      | at_mp_init | at_init_nfs | at_init_networking => 0%nat
      | _ => 1%nat
      end
  | mp_final => 1%nat
  end.

(** The values of a C int. *)
Definition int_range (v : Z) : Prop := - 2 ^ 31 <= v < 2 ^ 31.

(** Every event source of the configuration is an int. *)
Definition int_sources : Prop :=
  int_range (mp_event_source_serial cfg) /\
  int_range (mp_event_source_timer cfg) /\
  int_range (mp_event_source_framebuffer cfg) /\
  int_range (mp_event_source_nfs cfg) /\
  int_range (mp_event_source_i2c cfg).

(** Every [await] among the inputs is given an int. *)
Definition int_awaits (ins : list input) : Prop :=
  forall s, In (interp_await s) ins -> int_range s.

(** What [init] leaves in the free ring of queue [q]: one descriptor of
    BUFFER_SIZE bytes for each loop index, NUM_ENTRIES - 1 in all. *)
Definition seeded (q : queue_name) (data : Z) (st : State) : Prop :=
  free_slots q st = map (seed_desc data) seed_indices /\
  List.length (free_slots q st) = Z.to_nat (NUM_ENTRIES cfg - 1) /\
  Forall (fun d => SerialQueue.len d = BUFFER_SIZE cfg) (free_slots q st).

(** *** Notions for the properties of the whole run *)

(** The number of entries of a trace that satisfy [f]. *)
Definition occurrences (f : effect -> bool) (t : list effect) : nat :=
  List.length (filter f t).

Definition is_assertion_failure (e : effect) : bool :=
  match e with
  | assertion_failure => true
  | _ => false
  end.

Definition is_process_rx (e : effect) : bool :=
  match e with
  | call_process_rx => true
  | _ => false
  end.

Definition is_pyb_lwip_poll (e : effect) : bool :=
  match e with
  | call_pyb_lwip_poll => true
  | _ => false
  end.

Definition is_fs_process_completions (e : effect) : bool :=
  match e with
  | call_fs_process_completions => true
  | _ => false
  end.

Definition is_mpnet_handle_notify (e : effect) : bool :=
  match e with
  | call_mpnet_handle_notify => true
  | _ => false
  end.

(** The calls of [notified] that still owe their [mpnet_handle_notify]:
    one while the event cothread is stopped inside [notified]. *)
Definition owed_notify (st : State) : nat :=
  match ev_frame st with
  | ev_in_notified => 1%nat
  | _ => 0%nat
  end.

(** The targets of the [co_switch] calls of a trace, in order. *)
Fixpoint switch_targets (t : list effect) : list cothread_t :=
  match t with
  | [] => []
  | call_co_switch target :: rest => target :: switch_targets rest
  | _ :: rest => switch_targets rest
  end.

Definition other_cothread (c : cothread_t) : cothread_t :=
  match c with
  | t_event => t_mp
  | t_mp => t_event
  end.

(** [n] switches that start from cothread [from] and always go to the
    other cothread. *)
Fixpoint ping_pong (from : cothread_t) (n : nat) : list cothread_t :=
  match n with
  | O => []
  | S n' => other_cothread from :: ping_pong (other_cothread from) n'
  end.

(** The cothread that runs after [n] such switches. *)
Fixpoint after_switches (from : cothread_t) (n : nat) : cothread_t :=
  match n with
  | O => from
  | S n' => after_switches (other_cothread from) n'
  end.

(** All event sources the switch of [notified] can raise in this build. *)
Definition all_sources : Z :=
  Z.lor (mp_event_source_serial cfg)
    (Z.lor (mp_event_source_timer cfg)
       (Z.lor (if ENABLE_FRAMEBUFFER build
               then mp_event_source_framebuffer cfg else 0)
          (Z.lor (mp_event_source_nfs cfg)
             (if ENABLE_I2C build then mp_event_source_i2c cfg else 0)))).

(** A notification on [ch] raises bit [k]. *)
Definition raises_bit (k : Z) (ch : Z) : bool :=
  match channel_source ch with
  | Some s => Z.testbit s k
  | None => false
  end.

(** The event cothread is in the microkit loop and no awaited event is
    pending. *)
Definition parked (st : State) : Prop :=
  idle st /\ Z.land (active_events st) (mp_blocking_events st) = 0.

(** What the trace of a state looks like at any time: no assertion has
    failed, the three pumps have run equally often, every call of
    [notified] has made its [mpnet_handle_notify] except the one the event
    cothread is stopped in, and the switches go back and forth between the
    two cothreads, the last one to the cothread that runs. *)
Definition trace_regular (st : State) : Prop :=
  occurrences is_assertion_failure (trace st) = 0%nat /\
  occurrences is_pyb_lwip_poll (trace st) =
  occurrences is_process_rx (trace st) /\
  occurrences is_fs_process_completions (trace st) =
  occurrences is_process_rx (trace st) /\
  (occurrences is_mpnet_handle_notify (trace st) + owed_notify st)%nat =
  occurrences is_process_rx (trace st) /\
  exists n,
    switch_targets (trace st) = ping_pong t_event n /\
    co_current st = after_switches t_event n.

(** *** Notions for the entry routine's calls *)

(** The calls the entry routine makes itself. *)
Definition is_entry_effect (e : effect) : bool :=
  match e with
  | printf_initialising | call_mp_stack_ctrl_init | call_gc_init
  | call_mp_init | call_init_nfs | call_init_networking
  | call_pyexec_friendly_repl | call_pyexec_frozen_module _
  | call_gc_sweep_all | call_mp_deinit | printf_exited => true
  | _ => false
  end.

(** The statements from the label [start_repl] to the last printf. *)
Definition cycle_stmts : list entry_stmt :=
  [at_mp_stack_ctrl_init; at_gc_init; at_mp_init; at_init_nfs;
   at_init_networking; at_pyexec; at_gc_sweep_all; at_mp_deinit;
   at_printf_exited].

(** How many statements of [cycle_stmts] have begun when the routine is
    at [pc]. *)
Definition stmt_position (pc : entry_stmt) : nat :=
  match pc with
  | at_printf_initialising => 0
  | at_mp_stack_ctrl_init => 1
  | at_gc_init => 2
  | at_mp_init => 3
  | at_init_nfs => 4
  | at_init_networking => 5
  | at_pyexec => 6
  | at_gc_sweep_all => 7
  | at_mp_deinit => 8
  | at_printf_exited => 9
  end%nat.

(** The calls of the entry routine that is at [pc] after [n] complete
    passes from [start_repl] to the end. *)
Definition entry_calls (n : nat) (pc : entry_stmt) : list effect :=
  printf_initialising
    :: concat (repeat (map stmt_effect cycle_stmts) n)
    ++ map stmt_effect (firstn (stmt_position pc) cycle_stmts).

Definition entry_regular (st : State) : Prop :=
  match interp_frame st with
  | mp_fresh => filter is_entry_effect (trace st) = []
  | mp_in pc | mp_in_await pc _ =>
      exists n,
        filter is_entry_effect (trace st) = entry_calls n pc /\
        (EXEC_MODULE build <> None -> n = 0%nat)
  | mp_final =>
      filter is_entry_effect (trace st) = entry_calls 0 at_printf_exited
  end.

(** *** A call of [await] on the event cothread

    [await] called by code that runs on the event cothread (a pump, say)
    reaches [co_switch (t_event)] while [t_event] is the running cothread.
    libco saves the running cothread and resumes the target; with the
    running cothread as target the call returns to its caller at once.  So
    the second half of [await] runs right after the first. *)
Definition await_in_event_context (event_source : Z) (st : State)
  : outcome :=
  match await_enter event_source st with
  | Returned st' => Returned st'
  | Yielded st' => await_resume event_source st'
  | Fatal st' => Fatal st'
  end.

(** *** Straight runs of the entry routine *)

(** Each statement of [pcs] is the one the source puts after the one
    before it, starting after [pc]. *)
Fixpoint follows (pc : entry_stmt) (pcs : list entry_stmt) : Prop :=
  match pcs with
  | [] => True
  | p :: rest => next_stmt pc = Some p /\ follows p rest
  end.

(** The calls of [pcs] begun one after the other. *)
Definition enter_all (pcs : list entry_stmt) (st : State) : State :=
  fold_left (fun s p => enter_stmt p s) pcs st.

(** From the first statement of the routine to the main loop, and from
    the main loop to the last statement. *)
Definition setup_stmts : list entry_stmt :=
  [at_mp_stack_ctrl_init; at_gc_init; at_mp_init; at_init_nfs;
   at_init_networking; at_pyexec].

Definition teardown_stmts : list entry_stmt :=
  [at_gc_sweep_all; at_mp_deinit; at_printf_exited].

(** ** Basic facts *)

Lemma truthy_true (v : Z) : truthy v = true <-> v <> 0.
Proof.
  unfold truthy. destruct (Z.eqb_spec v 0); simpl; split; congruence.
Qed.

Lemma truthy_false (v : Z) : truthy v = false <-> v = 0.
Proof.
  unfold truthy. destruct (Z.eqb_spec v 0); simpl; split; congruence.
Qed.

Lemma notified_switch_active (ch : Z) (st : State) :
  active_events (notified_switch ch st) =
  match channel_source ch with
  | Some s => Z.lor (active_events st) s
  | None => active_events st
  end.
Proof.
  unfold notified_switch, channel_source.
  repeat match goal with
         | |- context [if ?c then _ else _] => destruct c
         end; reflexivity.
Qed.

Lemma notified_switch_frame (ch : Z) (st : State) :
  mp_blocking_events (notified_switch ch st) = mp_blocking_events st /\
  co_current (notified_switch ch st) = co_current st /\
  ev_frame (notified_switch ch st) = ev_frame st /\
  interp_frame (notified_switch ch st) = interp_frame st /\
  serial_rx_queue (notified_switch ch st) = serial_rx_queue st /\
  serial_tx_queue (notified_switch ch st) = serial_tx_queue st /\
  halted (notified_switch ch st) = halted st.
Proof.
  unfold notified_switch.
  repeat match goal with
         | |- context [if ?c then _ else _] => destruct c
         end; simpl; auto 10.
Qed.

Lemma serial_enqueue_free_control q b l st :
  control (serial_enqueue_free q b l st) = control st.
Proof.
  unfold serial_enqueue_free.
  destruct (SerialQueue.serial_enqueue_free (get_queue q st) b l) as [r h].
  destruct q; reflexivity.
Qed.

Lemma seed_free_ring_control q data st :
  control (seed_free_ring q data st) = control st.
Proof.
  unfold seed_free_ring. generalize seed_indices. intros l. revert st.
  induction l as [|i l IH]; intros st; simpl; [reflexivity|].
  rewrite IH. apply serial_enqueue_free_control.
Qed.

Lemma init_before_switch_control st :
  control (init_before_switch st) =
  (active_events st, mp_blocking_events st, co_current st, ev_frame st,
   mp_fresh, halted st).
Proof.
  unfold init_before_switch.
  set (s1 := seed_free_ring rx_queue _ _).
  set (s2 := seed_free_ring tx_queue _ _).
  assert (H2 : control s2 = control st).
  { unfold s2. rewrite seed_free_ring_control.
    change (control s1 = control st).
    unfold s1. rewrite seed_free_ring_control. reflexivity. }
  unfold control in *.
  destruct (ENABLE_I2C build); simpl; inversion H2; reflexivity.
Qed.

(** [init] always gets as far as the first statement of the interpreter's
    entry routine. *)
Lemma init_eq st :
  init st =
  Some (enter_stmt at_printf_initialising
          (co_switch t_mp (set_ev_frame ev_in_init (init_before_switch st)))).
Proof.
  unfold init. fold (init_before_switch st).
  unfold resume_mp.
  replace (interp_frame
             (co_switch t_mp
                (set_ev_frame ev_in_init (init_before_switch st))))
    with mp_fresh; [reflexivity|].
  pose proof (init_before_switch_control st) as H.
  unfold control in H. simpl. inversion H. reflexivity.
Qed.

Lemma init_control st st' :
  init st = Some st' ->
  control st' =
  (active_events st, mp_blocking_events st, t_mp, ev_in_init,
   mp_in at_printf_initialising, halted st).
Proof.
  rewrite init_eq. intros H. inversion H; subst; clear H.
  pose proof (init_before_switch_control st) as H.
  unfold control in *. simpl. inversion H. reflexivity.
Qed.

Lemma power_on_consistent rxq txq : consistent (power_on rxq txq).
Proof. unfold consistent, power_on; simpl. auto. Qed.

(** ** The invariant *)

Lemma notified_enter_eq ch st :
  notified_enter ch st =
  let st1 := notified_switch ch (pumped st) in
  if truthy (Z.land (active_events st1) (mp_blocking_events st1)) then
    Yielded (co_switch t_mp (set_ev_frame ev_in_notified st1))
  else Returned (emit call_mpnet_handle_notify st1).
Proof. reflexivity. Qed.

Lemma switched_control ch st :
  control (notified_switch ch (pumped st)) =
  (match channel_source ch with
   | Some s => Z.lor (active_events st) s
   | None => active_events st
   end, mp_blocking_events st, co_current st, ev_frame st, interp_frame st,
   halted st).
Proof.
  unfold control. rewrite notified_switch_active.
  destruct (notified_switch_frame ch (pumped st))
    as (-> & -> & -> & -> & _ & _ & ->).
  reflexivity.
Qed.

Lemma step_consistent i st st' :
  consistent st -> step i st = Some st' -> consistent st'.
Proof.
  intros [Hh Hf] Hs. unfold step in Hs. rewrite Hh in Hs.
  destruct i as [|ch|s|].
  - destruct (co_current st) eqn:Ec; try discriminate.
    destruct (ev_frame st) eqn:Ee; try discriminate.
    apply init_control in Hs. unfold control in Hs.
    inversion Hs as [[Ha Hb Hc He Hi Hh']]. clear Hs.
    destruct (interp_frame st) eqn:Ei;
      try (destruct Hf as (? & ? & ?); congruence).
    destruct Hf as (_ & _ & Hb0).
    unfold consistent. rewrite Hi, Hh', Hc, He, Hb. auto.
  - destruct (co_current st) eqn:Ec; try discriminate.
    destruct (ev_frame st) eqn:Ee; try discriminate.
    unfold notified in Hs. rewrite notified_enter_eq in Hs. cbv zeta in Hs.
    pose proof (switched_control ch st) as Hc. unfold control in Hc.
    set (st1 := notified_switch ch (pumped st)) in *.
    inversion Hc as [[Ha Hb Hcc Hee Hi Hhh]]. clear Hc.
    destruct (truthy (Z.land (active_events st1) (mp_blocking_events st1)))
      eqn:Et.
    + unfold resume_mp in Hs. simpl in Hs. rewrite Hi in Hs.
      destruct (interp_frame st) as [|pc|pc s|] eqn:Ei; try discriminate.
      * destruct Hf as (_ & Hf & _). congruence.
      * destruct Hf as (_ & _ & Hbs & Hz).
        unfold await_resume in Hs. simpl in Hs.
        rewrite Hb, Hbs in Et. rewrite Et in Hs. simpl in Hs.
        rewrite andb_false_r in Hs. inversion Hs; subst st'; clear Hs.
        unfold consistent; simpl. rewrite Hhh. auto.
    + inversion Hs; subst st'; clear Hs.
      unfold consistent; simpl. rewrite Hhh, Hi, Hcc, Hee, Hb.
      split; [assumption|].
      destruct (interp_frame st) as [|pc|pc s|] eqn:Ei.
      * destruct Hf as (_ & Hf & _). congruence.
      * destruct Hf as (Hf & _). congruence.
      * destruct Hf as (_ & _ & Hbs & Hz). repeat split; auto.
        apply truthy_false in Et. rewrite Hb, Hbs in Et. exact Et.
      * destruct Hf as (_ & _ & Hbs & Hz). auto.
  - destruct (co_current st) eqn:Ec; try discriminate.
    destruct (interp_frame st) as [|pc|pc s0|] eqn:Ei;
      try (destruct (ev_frame st); discriminate).
    destruct Hf as (_ & He & Hb).
    assert (Hs' : match await_enter s st with
                  | Returned st' => Some st'
                  | Yielded st' =>
                      resume_event (set_interp_frame (mp_in_await pc s) st')
                  | Fatal _ => None
                  end = Some st') by (destruct (ev_frame st); exact Hs).
    clear Hs. unfold await_enter in Hs'.
    destruct (truthy (Z.land (active_events st) s)) eqn:Et.
    + inversion Hs'; subst st'; clear Hs'.
      unfold consistent; simpl. rewrite Hh, Ei, Ec. auto.
    + apply truthy_false in Et.
      unfold resume_event in Hs'. simpl in Hs'.
      destruct He as [He|He]; rewrite He in Hs';
        inversion Hs'; subst st'; clear Hs';
        unfold consistent; simpl; rewrite Hh; auto.
  - destruct (co_current st) eqn:Ec; try discriminate.
    destruct (interp_frame st) as [|pc|pc s0|] eqn:Ei;
      try (destruct (ev_frame st); discriminate).
    destruct Hf as (_ & He & Hb).
    assert (Hs' : match t_mp_entrypoint_after pc st with
                  | Returned st' => Some st'
                  | Yielded st' => resume_event st'
                  | Fatal _ => None
                  end = Some st') by (destruct (ev_frame st); exact Hs).
    clear Hs.
    destruct pc; simpl in Hs';
      try (inversion Hs'; subst st'; clear Hs';
           unfold consistent; simpl; rewrite Hh, Ec; auto; fail).
    destruct (EXEC_MODULE build) eqn:Em.
    + unfold resume_event in Hs'. simpl in Hs'.
      destruct He as [He|He]; rewrite He in Hs';
        inversion Hs'; subst st'; clear Hs';
        unfold consistent; simpl; rewrite Hh; repeat split; auto;
        congruence.
    + inversion Hs'; subst st'; clear Hs'.
      unfold consistent; simpl; rewrite Hh, Ec; auto.
Qed.

Lemma run_consistent ins : forall st st',
  consistent st -> run ins st = Some st' -> consistent st'.
Proof.
  induction ins as [|i ins IH]; simpl; intros st st' Hc Hr.
  - inversion Hr; subst; assumption.
  - destruct (step i st) as [st1|] eqn:Es; [|discriminate].
    eapply IH; [|eassumption]. eapply step_consistent; eassumption.
Qed.

(** ** When each input can happen *)

Lemma step_init_inv st st' :
  step microkit_init st = Some st' ->
  halted st = false /\ co_current st = t_event /\
  ev_frame st = ev_power_on /\ init st = Some st'.
Proof.
  unfold step. destruct (halted st); [discriminate|].
  destruct (co_current st); [|discriminate].
  destruct (ev_frame st); try discriminate. auto.
Qed.

Lemma step_notified_inv ch st st' :
  step (microkit_notified ch) st = Some st' ->
  halted st = false /\ co_current st = t_event /\
  ev_frame st = ev_idle /\ notified ch st = Some st'.
Proof.
  unfold step. destruct (halted st); [discriminate|].
  destruct (co_current st); [|discriminate].
  destruct (ev_frame st); try discriminate. auto.
Qed.

Lemma step_notified_eq ch st :
  halted st = false -> co_current st = t_event -> ev_frame st = ev_idle ->
  step (microkit_notified ch) st = notified ch st.
Proof. intros Hh Hc He. unfold step. rewrite Hh, Hc, He. reflexivity. Qed.

Lemma step_await_eq s pc st :
  halted st = false -> co_current st = t_mp -> interp_frame st = mp_in pc ->
  step (interp_await s) st =
  match await_enter s st with
  | Returned st' => Some st'
  | Yielded st' => resume_event (set_interp_frame (mp_in_await pc s) st')
  | Fatal _ => None
  end.
Proof.
  intros Hh Hc Hi. unfold step. rewrite Hh, Hc, Hi.
  destruct (ev_frame st); reflexivity.
Qed.

Lemma step_await_inv s st st' :
  step (interp_await s) st = Some st' ->
  halted st = false /\ co_current st = t_mp /\
  exists pc, interp_frame st = mp_in pc.
Proof.
  unfold step. destruct (halted st); [discriminate|].
  destruct (co_current st); [discriminate|].
  destruct (interp_frame st) as [|pc|pc s0|];
    try (destruct (ev_frame st); discriminate).
  eauto.
Qed.

Lemma step_return_eq pc st :
  halted st = false -> co_current st = t_mp -> interp_frame st = mp_in pc ->
  step interp_return st =
  match t_mp_entrypoint_after pc st with
  | Returned st' => Some st'
  | Yielded st' => resume_event st'
  | Fatal _ => None
  end.
Proof.
  intros Hh Hc Hi. unfold step. rewrite Hh, Hc, Hi.
  destruct (ev_frame st); reflexivity.
Qed.

Lemma step_return_inv st st' :
  step interp_return st = Some st' ->
  halted st = false /\ co_current st = t_mp /\
  exists pc, interp_frame st = mp_in pc.
Proof.
  unfold step. destruct (halted st); [discriminate|].
  destruct (co_current st); [discriminate|].
  destruct (interp_frame st) as [|pc|pc s0|];
    try (destruct (ev_frame st); discriminate).
  eauto.
Qed.

(** ** How one move changes the two masks *)

(** [active_events] after the switch of [notified]. *)
Lemma raised_superset ch a k :
  Z.testbit a k = true ->
  Z.testbit (match channel_source ch with
             | Some s => Z.lor a s
             | None => a
             end) k = true.
Proof.
  intros H. destruct (channel_source ch); [|assumption].
  rewrite Z.lor_spec, H. reflexivity.
Qed.

Lemma await_resume_cases s st :
  (await_resume s st = Fatal (set_halted (emit assertion_failure st)) /\
   NDEBUG build = false /\ Z.land (active_events st) s = 0) \/
  (await_resume s st =
   Returned (set_active_events (Z.land (active_events st) (Z.lnot s))
               (set_mp_blocking_events mp_event_source_none st)) /\
   (NDEBUG build = true \/ Z.land (active_events st) s <> 0)).
Proof.
  unfold await_resume.
  destruct (NDEBUG build); simpl; [right; auto|].
  destruct (truthy (Z.land (active_events st) s)) eqn:Et; simpl.
  - right. split; [reflexivity|]. right. apply truthy_true. exact Et.
  - left. apply truthy_false in Et. auto.
Qed.

(** Every move either leaves [active_events] alone, or is the switch of
    [notified] adding the bits of a channel, or is an [await] taking the
    bits of its own source away: at once on the fast path, after the
    resuming notification on the slow path. *)
Lemma step_active i st st' :
  step i st = Some st' ->
  active_events st' = active_events st \/
  (exists s, i = interp_await s /\
             active_events st' = Z.land (active_events st) (Z.lnot s)) \/
  (exists ch, i = microkit_notified ch /\
              active_events st' =
              match channel_source ch with
              | Some s => Z.lor (active_events st) s
              | None => active_events st
              end) \/
  (exists ch pc s, i = microkit_notified ch /\
                   interp_frame st = mp_in_await pc s /\
                   interp_frame st' = mp_in pc /\
                   active_events st' =
                   Z.land (match channel_source ch with
                           | Some s => Z.lor (active_events st) s
                           | None => active_events st
                           end) (Z.lnot s)).
Proof.
  intros Hs. destruct i as [|ch|s|].
  - apply step_init_inv in Hs. destruct Hs as (_ & _ & _ & Hs).
    apply init_control in Hs. unfold control in Hs.
    inversion Hs. left. reflexivity.
  - apply step_notified_inv in Hs. destruct Hs as (_ & _ & _ & Hs).
    unfold notified in Hs. rewrite notified_enter_eq in Hs. cbv zeta in Hs.
    pose proof (switched_control ch st) as Hc. unfold control in Hc.
    set (st1 := notified_switch ch (pumped st)) in *.
    inversion Hc as [[Ha Hb Hcc Hee Hi Hhh]]. clear Hc.
    destruct (truthy (Z.land (active_events st1) (mp_blocking_events st1))).
    + unfold resume_mp in Hs. simpl in Hs. rewrite Hi in Hs.
      destruct (interp_frame st) as [|pc|pc s|] eqn:Ei; try discriminate.
      * inversion Hs; subst st'; clear Hs. simpl.
        right; right; left. exists ch. split; [reflexivity|]. exact Ha.
      * set (st2 := co_switch t_mp (set_ev_frame ev_in_notified st1)) in *.
        destruct (await_resume_cases s st2) as [(E & _)|(E & _)];
          rewrite E in Hs; inversion Hs; subst st'; clear Hs; simpl.
        -- right; right; left. exists ch. split; [reflexivity|]. exact Ha.
        -- right; right; right. exists ch, pc, s.
           rewrite Ha. auto.
    + inversion Hs; subst st'; clear Hs. simpl.
      right; right; left. exists ch. split; [reflexivity|]. exact Ha.
  - pose proof (step_await_inv _ _ _ Hs) as (Hh & Hc & pc & Hi).
    rewrite (step_await_eq s pc st Hh Hc Hi) in Hs.
    unfold await_enter in Hs.
    destruct (truthy (Z.land (active_events st) s)).
    + inversion Hs; subst st'; clear Hs. simpl.
      right; left. exists s. auto.
    + unfold resume_event in Hs. simpl in Hs.
      destruct (ev_frame st); inversion Hs; subst st'; simpl; auto.
  - pose proof (step_return_inv _ _ Hs) as (Hh & Hc & pc & Hi).
    rewrite (step_return_eq pc st Hh Hc Hi) in Hs.
    destruct pc; simpl in Hs;
      try (inversion Hs; subst st'; simpl; auto; fail).
    destruct (EXEC_MODULE build).
    + unfold resume_event in Hs. simpl in Hs.
      destruct (ev_frame st); inversion Hs; subst st'; simpl; auto.
    + inversion Hs; subst st'; simpl; auto.
Qed.

(** ** [step] and [moves] agree *)

Lemma resume_event_stopped st :
  event_stopped st -> resume_event st = Some (event_resumed st).
Proof.
  unfold event_stopped, resume_event, event_resumed.
  intros [E|E]; rewrite E; reflexivity.
Qed.

Lemma resume_event_inv st st' :
  resume_event st = Some st' -> event_stopped st /\ st' = event_resumed st.
Proof.
  unfold event_stopped, resume_event, event_resumed.
  destruct (ev_frame st); intros H; inversion H; auto.
Qed.

Lemma t_mp_entrypoint_after_eq pc st :
  t_mp_entrypoint_after pc st =
  match next_stmt pc with
  | Some pc' => Returned (enter_stmt pc' st)
  | None => Yielded (co_switch t_event (set_interp_frame mp_final st))
  end.
Proof.
  destruct pc; simpl; try reflexivity.
  destruct (EXEC_MODULE build); reflexivity.
Qed.

Lemma step_moves i st st' : step i st = Some st' -> moves i st st'.
Proof.
  intros Hs. destruct i as [|ch|s|].
  - destruct (step_init_inv _ _ Hs) as (Hh & Hc & He & Hi).
    rewrite init_eq in Hi. inversion Hi; subst st'.
    constructor; assumption.
  - destruct (step_notified_inv _ _ _ Hs) as (Hh & Hc & He & Hn).
    assert (Hidle : idle st) by (unfold idle; auto).
    unfold notified in Hn. rewrite notified_enter_eq in Hn. cbv zeta in Hn.
    remember (notified_switch ch (pumped st)) as st1 eqn:E1.
    assert (Hi : interp_frame st1 = interp_frame st).
    { pose proof (switched_control ch st) as H. rewrite <- E1 in H.
      unfold control in H. inversion H. reflexivity. }
    destruct (truthy (Z.land (active_events st1) (mp_blocking_events st1)))
      eqn:Et.
    + apply truthy_true in Et.
      unfold resume_mp in Hn. simpl in Hn. rewrite Hi in Hn.
      destruct (interp_frame st) as [|pc|pc s|] eqn:Ei; try discriminate.
      * inversion Hn; subst st'.
        eapply moves_notified_enter; eassumption.
      * destruct (await_resume_cases s
                    (co_switch t_mp (set_ev_frame ev_in_notified st1)))
          as [(E & Hnd & Hz)|(E & Hok)];
          rewrite E in Hn; inversion Hn; subst st'.
        -- eapply moves_notified_assert; eassumption.
        -- eapply moves_notified_resume; eassumption.
    + apply truthy_false in Et. inversion Hn; subst st'.
      eapply moves_notified_return; eassumption.
  - destruct (step_await_inv _ _ _ Hs) as (Hh & Hc & pc & Hi).
    rewrite (step_await_eq s pc st Hh Hc Hi) in Hs.
    assert (Hr : running pc st) by (unfold running; auto).
    unfold await_enter in Hs.
    destruct (truthy (Z.land (active_events st) s)) eqn:Et.
    + apply truthy_true in Et. inversion Hs; subst st'.
      eapply moves_await_fast; eassumption.
    + apply truthy_false in Et.
      apply resume_event_inv in Hs. destruct Hs as (Hst & ->).
      eapply moves_await_yield; eassumption.
  - destruct (step_return_inv _ _ Hs) as (Hh & Hc & pc & Hi).
    rewrite (step_return_eq pc st Hh Hc Hi) in Hs.
    assert (Hr : running pc st) by (unfold running; auto).
    rewrite t_mp_entrypoint_after_eq in Hs.
    destruct (next_stmt pc) as [pc'|] eqn:En.
    + inversion Hs; subst st'. eapply moves_return_next; eassumption.
    + apply resume_event_inv in Hs. destruct Hs as (Hst & ->).
      eapply moves_return_final; eassumption.
Qed.

Lemma moves_step i st st' : moves i st st' -> step i st = Some st'.
Proof.
  intros Hm. destruct Hm.
  - unfold step. rewrite H, H0, H1. apply init_eq.
  - destruct H as (Hh & Hc & He). rewrite step_notified_eq by assumption.
    unfold notified. rewrite notified_enter_eq. cbv zeta. subst st1.
    apply truthy_false in H1. rewrite H1. reflexivity.
  - destruct H as (Hh & Hc & He). rewrite step_notified_eq by assumption.
    unfold notified. rewrite notified_enter_eq. cbv zeta.
    rewrite <- H0. apply truthy_true in H1. rewrite H1.
    assert (Hi : interp_frame st1 = interp_frame st).
    { pose proof (switched_control ch st) as Hx. rewrite <- H0 in Hx.
      unfold control in Hx. inversion Hx. reflexivity. }
    unfold resume_mp. simpl. rewrite Hi, H2.
    destruct (await_resume_cases s
                (co_switch t_mp (set_ev_frame ev_in_notified st1)))
      as [(E & Hnd & Hz)|(E & Hok)]; rewrite E.
    + simpl in Hz. destruct H3; congruence.
    + reflexivity.
  - destruct H as (Hh & Hc & He). rewrite step_notified_eq by assumption.
    unfold notified. rewrite notified_enter_eq. cbv zeta.
    rewrite <- H0. apply truthy_true in H1. rewrite H1.
    assert (Hi : interp_frame st1 = interp_frame st).
    { pose proof (switched_control ch st) as Hx. rewrite <- H0 in Hx.
      unfold control in Hx. inversion Hx. reflexivity. }
    unfold resume_mp. simpl. rewrite Hi, H2.
    destruct (await_resume_cases s
                (co_switch t_mp (set_ev_frame ev_in_notified st1)))
      as [(E & Hnd & Hz)|(E & Hok)]; rewrite E.
    + reflexivity.
    + simpl in Hok. destruct Hok; congruence.
  - destruct H as (Hh & Hc & He). rewrite step_notified_eq by assumption.
    unfold notified. rewrite notified_enter_eq. cbv zeta.
    rewrite <- H0. apply truthy_true in H1. rewrite H1.
    assert (Hi : interp_frame st1 = interp_frame st).
    { pose proof (switched_control ch st) as Hx. rewrite <- H0 in Hx.
      unfold control in Hx. inversion Hx. reflexivity. }
    unfold resume_mp. simpl. rewrite Hi, H2. reflexivity.
  - destruct H as (Hh & Hc & Hi).
    rewrite (step_await_eq s pc st Hh Hc Hi). unfold await_enter.
    apply truthy_true in H0. rewrite H0. reflexivity.
  - destruct H as (Hh & Hc & Hi).
    rewrite (step_await_eq s pc st Hh Hc Hi). unfold await_enter.
    apply truthy_false in H0. rewrite H0.
    apply resume_event_stopped. exact H1.
  - destruct H as (Hh & Hc & Hi).
    rewrite (step_return_eq pc st Hh Hc Hi), t_mp_entrypoint_after_eq, H0.
    reflexivity.
  - destruct H as (Hh & Hc & Hi).
    rewrite (step_return_eq pc st Hh Hc Hi), t_mp_entrypoint_after_eq, H0.
    apply resume_event_stopped. exact H1.
Qed.

(** The switch of [notified] touches [active_events] and the trace only. *)
Lemma switch_blocking ch st :
  mp_blocking_events (notified_switch ch st) = mp_blocking_events st.
Proof. apply notified_switch_frame. Qed.

Lemma switch_current ch st :
  co_current (notified_switch ch st) = co_current st.
Proof. apply notified_switch_frame. Qed.

Lemma switch_ev_frame ch st :
  ev_frame (notified_switch ch st) = ev_frame st.
Proof. apply notified_switch_frame. Qed.

Lemma switch_interp_frame ch st :
  interp_frame (notified_switch ch st) = interp_frame st.
Proof. apply notified_switch_frame. Qed.

Lemma switch_halted ch st :
  halted (notified_switch ch st) = halted st.
Proof. apply notified_switch_frame. Qed.

Lemma switch_rx ch st :
  serial_rx_queue (notified_switch ch st) = serial_rx_queue st.
Proof. apply notified_switch_frame. Qed.

Lemma switch_tx ch st :
  serial_tx_queue (notified_switch ch st) = serial_tx_queue st.
Proof. apply notified_switch_frame. Qed.

Create Rewrite HintDb fields.

Arguments init_before_switch st : simpl never.

Hint Rewrite switch_blocking switch_current switch_ev_frame
     switch_interp_frame switch_halted switch_rx switch_tx
     notified_switch_active : fields.

Ltac fields := cbn; autorewrite with fields; cbn.

Lemma event_resumed_active st :
  active_events (event_resumed st) = active_events st.
Proof. unfold event_resumed. destruct (ev_frame st); reflexivity. Qed.

Lemma event_resumed_blocking st :
  mp_blocking_events (event_resumed st) = mp_blocking_events st.
Proof. unfold event_resumed. destruct (ev_frame st); reflexivity. Qed.

Lemma event_resumed_current st :
  co_current (event_resumed st) = co_current st.
Proof. unfold event_resumed. destruct (ev_frame st); reflexivity. Qed.

Lemma event_resumed_ev_frame st : ev_frame (event_resumed st) = ev_idle.
Proof. unfold event_resumed. destruct (ev_frame st); reflexivity. Qed.

Lemma event_resumed_interp_frame st :
  interp_frame (event_resumed st) = interp_frame st.
Proof. unfold event_resumed. destruct (ev_frame st); reflexivity. Qed.

Lemma event_resumed_halted st : halted (event_resumed st) = halted st.
Proof. unfold event_resumed. destruct (ev_frame st); reflexivity. Qed.

Hint Rewrite event_resumed_active event_resumed_blocking
     event_resumed_current event_resumed_ev_frame
     event_resumed_interp_frame event_resumed_halted : fields.

Lemma init_before_switch_active st :
  active_events (init_before_switch st) = active_events st.
Proof.
  pose proof (init_before_switch_control st) as H. unfold control in H.
  inversion H. reflexivity.
Qed.

Lemma init_before_switch_blocking st :
  mp_blocking_events (init_before_switch st) = mp_blocking_events st.
Proof.
  pose proof (init_before_switch_control st) as H. unfold control in H.
  inversion H. reflexivity.
Qed.

Lemma init_before_switch_halted st :
  halted (init_before_switch st) = halted st.
Proof.
  pose proof (init_before_switch_control st) as H. unfold control in H.
  inversion H. reflexivity.
Qed.

Hint Rewrite init_before_switch_active init_before_switch_blocking
     init_before_switch_halted : fields.

(** ** Bits *)

Lemma testbit_land_lnot a s k :
  Z.testbit (Z.land a (Z.lnot s)) k =
  Z.testbit a k && negb (Z.testbit s k).
Proof. rewrite <- Z.ldiff_land. apply Z.ldiff_spec. Qed.

Lemma land_pow2_nonzero a k :
  0 <= k -> Z.land a (2 ^ k) <> 0 -> Z.testbit a k = true.
Proof.
  intros Hk Hn. destruct (Z.testbit a k) eqn:E; [reflexivity|].
  exfalso. apply Hn. apply Z.bits_inj'. intros n Hn0.
  rewrite Z.land_spec, Z.bits_0, Z.pow2_bits_eqb by assumption.
  destruct (Z.eqb_spec k n); [subst; rewrite E|]; simpl;
    [reflexivity|apply andb_false_r].
Qed.

(** ** The interpreter's pending wait along a run *)

Lemma step_not_waiting i st st' k :
  step i st = Some st' ->
  (forall s, i = interp_await s -> Z.testbit s k = false) ->
  not_waiting_for k st -> not_waiting_for k st'.
Proof.
  intros Hs Hi Hw. apply step_moves in Hs. unfold not_waiting_for in *.
  destruct Hs; subst; fields; auto.
Qed.

(** ** The blocking wait: fast path *)

(** C2.  Whenever the interpreter calls [await s] while some bit of [s]
    is set in [active_events], the call returns at once: the new
    [active_events] is the old one without the bits of [s] (for a
    single-bit source, the old one with exactly that bit cleared), and
    nothing else changes: [mp_blocking_events], the running cothread and
    both frames are as before and the trace has no new entry, so no
    [co_switch] took place. *)
Theorem await_fast_path (st : State) (s : Z) (pc : entry_stmt) :
  halted st = false -> co_current st = t_mp -> interp_frame st = mp_in pc ->
  Z.land (active_events st) s <> 0 ->
  let st' := set_active_events (Z.land (active_events st) (Z.lnot s)) st in
  await_enter s st = Returned st' /\
  step (interp_await s) st = Some st' /\
  (forall k, Z.testbit (active_events st') k =
             Z.testbit (active_events st) k && negb (Z.testbit s k)) /\
  (forall k, 0 <= k -> s = 2 ^ k ->
             Z.testbit (active_events st) k = true /\
             active_events st' = Z.clearbit (active_events st) k) /\
  mp_blocking_events st' = mp_blocking_events st /\
  co_current st' = t_mp /\
  interp_frame st' = mp_in pc /\
  ev_frame st' = ev_frame st /\
  trace st' = trace st /\
  halted st' = false.
Proof.
  intros Hh Hc Hi Hn st'.
  assert (He : await_enter s st = Returned st').
  { unfold await_enter. apply truthy_true in Hn. rewrite Hn. reflexivity. }
  split; [exact He|].
  split; [rewrite (step_await_eq s pc st Hh Hc Hi), He; reflexivity|].
  split; [intros k; apply testbit_land_lnot|].
  split.
  - intros k Hk ->. split; [apply land_pow2_nonzero; assumption|].
    simpl. rewrite Z.clearbit_spec', Z.ldiff_land. reflexivity.
  - simpl. auto 10.
Qed.

(** ** Events are not lost *)

Lemma step_keeps_bit i st st' k :
  step i st = Some st' ->
  Z.testbit (active_events st) k = true ->
  Z.testbit (active_events st') k = false ->
  (exists s, i = interp_await s /\ Z.testbit s k = true) \/
  (exists ch pc s, i = microkit_notified ch /\
                   interp_frame st = mp_in_await pc s /\
                   interp_frame st' = mp_in pc /\
                   Z.testbit s k = true).
Proof.
  intros Hs Hb Hb'.
  destruct (step_active i st st' Hs)
    as [E|[(s & -> & E)|[(ch & -> & E)|(ch & pc & s & -> & Hf & Hf' & E)]]].
  - rewrite E in Hb'. congruence.
  - left. exists s. split; [reflexivity|].
    rewrite E, testbit_land_lnot, Hb in Hb'. simpl in Hb'.
    destruct (Z.testbit s k); [reflexivity|discriminate].
  - rewrite E, (raised_superset ch _ k Hb) in Hb'. discriminate.
  - right. exists ch, pc, s. repeat split; try assumption.
    rewrite E, testbit_land_lnot, (raised_superset ch _ k Hb) in Hb'.
    simpl in Hb'. destruct (Z.testbit s k); [reflexivity|discriminate].
Qed.

Lemma run_keeps_bit ins : forall st st' k,
  run ins st = Some st' ->
  not_waiting_for k st -> never_awaits k ins ->
  Z.testbit (active_events st) k = true ->
  Z.testbit (active_events st') k = true.
Proof.
  induction ins as [|i ins IH]; simpl; intros st st' k Hr Hw Hn Hb.
  - inversion Hr; subst; assumption.
  - destruct (step i st) as [st1|] eqn:Es; [|discriminate].
    assert (Hi : forall s, i = interp_await s -> Z.testbit s k = false).
    { intros s ->. apply Hn. left. reflexivity. }
    apply (IH st1 st' k Hr).
    + eapply step_not_waiting; eassumption.
    + intros s Hin. apply Hn. right. exact Hin.
    + destruct (Z.testbit (active_events st1) k) eqn:Eb; [reflexivity|].
      destruct (step_keeps_bit i st st1 k Es Hb Eb)
        as [(s & -> & Hs)|(ch & pc & s & -> & Hf & _ & Hs)].
      * rewrite (Hi s eq_refl) in Hs. discriminate.
      * unfold not_waiting_for in Hw. rewrite Hf in Hw. congruence.
Qed.

(** C3.  A bit of [active_events] that is set stays set: one move can
    clear it only if the move is an [await] on a source that has this bit
    (the fast path), or the notification that resumes the pending [await]
    on such a source (the slow path); over any sequence of moves in which
    no [await] names the bit, and in particular over any sequence of
    notifications, the bit is still set at the end.  The switch of
    [notified] only adds bits, and the bit of a recognised channel is set
    after its notification unless the pending [await] consumes it; [init]
    and the statements of the entry routine leave [active_events] as it
    is. *)
Theorem events_never_lost :
  (forall i st st' k,
      step i st = Some st' ->
      Z.testbit (active_events st) k = true ->
      Z.testbit (active_events st') k = false ->
      (exists s, i = interp_await s /\ Z.testbit s k = true) \/
      (exists ch pc s, i = microkit_notified ch /\
                       interp_frame st = mp_in_await pc s /\
                       interp_frame st' = mp_in pc /\
                       Z.testbit s k = true)) /\
  (forall ins st st' k,
      run ins st = Some st' ->
      not_waiting_for k st -> never_awaits k ins ->
      Z.testbit (active_events st) k = true ->
      Z.testbit (active_events st') k = true) /\
  (forall chs st st' k,
      run (map microkit_notified chs) st = Some st' ->
      not_waiting_for k st ->
      Z.testbit (active_events st) k = true ->
      Z.testbit (active_events st') k = true) /\
  (forall ch s st st' k,
      step (microkit_notified ch) st = Some st' ->
      channel_source ch = Some s -> Z.testbit s k = true ->
      not_waiting_for k st ->
      Z.testbit (active_events st') k = true) /\
  (forall ch st k,
      Z.testbit (active_events st) k = true ->
      Z.testbit (active_events (notified_switch ch st)) k = true) /\
  (forall i st st',
      step i st = Some st' ->
      i = microkit_init \/ i = interp_return ->
      active_events st' = active_events st).
Proof.
  split; [exact step_keeps_bit|].
  split; [intros; eapply run_keeps_bit; eassumption|].
  split.
  - intros chs st st' k Hr Hw Hb.
    eapply run_keeps_bit; try eassumption.
    intros s Hin. apply in_map_iff in Hin.
    destruct Hin as (c & Hc & _). discriminate.
  - split.
    + intros ch s st st' k Hs Hc Hk Hw.
      destruct (step_active _ _ _ Hs)
        as [E|[(s0 & E0 & _)|[(ch0 & E0 & E)
                              |(ch0 & pc & s0 & E0 & Hf & _ & E)]]];
        try discriminate.
      * apply step_moves in Hs. inversion Hs; subst; fields.
        -- rewrite Hc, Z.lor_spec, Hk. apply orb_true_r.
        -- rewrite testbit_land_lnot. rewrite Hc, Z.lor_spec, Hk.
           unfold not_waiting_for in Hw.
           match goal with
           | Hx : interp_frame st = mp_in_await _ _ |- _ =>
               rewrite Hx in Hw; rewrite Hw
           end.
           rewrite orb_true_r. reflexivity.
        -- rewrite Hc, Z.lor_spec, Hk. apply orb_true_r.
        -- rewrite Hc, Z.lor_spec, Hk. apply orb_true_r.
      * inversion E0; subst ch0. rewrite E, Hc, Z.lor_spec, Hk.
        apply orb_true_r.
      * inversion E0; subst ch0. rewrite E, Hc, testbit_land_lnot.
        unfold not_waiting_for in Hw. rewrite Hf in Hw.
        rewrite Z.lor_spec, Hk, Hw, orb_true_r. reflexivity.
    + split.
      * intros ch st k Hb. rewrite notified_switch_active.
        apply raised_superset. exact Hb.
      * intros i st st' Hs Hi.
        destruct (step_active _ _ _ Hs)
          as [E|[(s0 & E0 & _)|[(ch0 & E0 & _)|(ch0 & pc & s0 & E0 & _)]]];
          [exact E| | |]; destruct Hi; congruence.
Qed.

(** ** The blocking wait: slow path *)

Lemma notified_switch_trace ch st :
  trace (notified_switch ch st) =
  trace st ++ (if known_channel ch then []
               else [printf_unexpected_notification ch]).
Proof.
  unfold notified_switch, known_channel, channel_source.
  repeat match goal with
         | |- context [if ?c then _ else _] => destruct c
         end; simpl; rewrite ?app_nil_r; reflexivity.
Qed.

Lemma switched_trace ch st :
  trace (notified_switch ch (pumped st)) = trace st ++ notified_prefix ch.
Proof.
  rewrite notified_switch_trace. unfold notified_prefix. simpl.
  rewrite <- !app_assoc. reflexivity.
Qed.

Lemma land_lor_self a s : Z.land a s = 0 -> Z.land (Z.lor a s) s = s.
Proof.
  intros H. rewrite Z.land_lor_distr_l, H, Z.land_diag. apply Z.lor_0_l.
Qed.

Lemma land_lor_unrelated a s' s :
  Z.land a s = 0 -> Z.land s' s = 0 -> Z.land (Z.lor a s') s = 0.
Proof.
  intros H H'. rewrite Z.land_lor_distr_l, H, H'. reflexivity.
Qed.

(** A notification that raises no bit of the awaited source leaves the
    interpreter waiting. *)
Lemma waiting_unrelated pc s ch st :
  waiting pc s st -> unrelated s ch ->
  exists st', step (microkit_notified ch) st = Some st' /\
              waiting pc s st'.
Proof.
  intros (Hidle & Hf & Hb & Hz) Hu.
  set (st1 := notified_switch ch (pumped st)).
  assert (Hz1 : Z.land (active_events st1) (mp_blocking_events st1) = 0).
  { unfold st1. fields. rewrite Hb.
    destruct (channel_source ch) as [s'|] eqn:Ec; [|exact Hz].
    apply land_lor_unrelated; [exact Hz|]. apply Hu. exact Ec. }
  exists (emit call_mpnet_handle_notify st1). split.
  - apply moves_step.
    eapply moves_notified_return; [exact Hidle|reflexivity|exact Hz1].
  - destruct Hidle as (Hh & Hc & He).
    unfold st1 in Hz1. autorewrite with fields in Hz1. simpl in Hz1.
    rewrite Hb in Hz1.
    unfold waiting, idle, st1. fields. auto 10.
Qed.

Lemma waiting_unrelated_run pc s chs : forall st,
  waiting pc s st -> Forall (unrelated s) chs ->
  exists st', run (map microkit_notified chs) st = Some st' /\
              waiting pc s st'.
Proof.
  induction chs as [|c chs IH]; intros st Hw Hall; simpl.
  - eauto.
  - inversion Hall as [|? ? Hc Hrest]; subst.
    destruct (waiting_unrelated pc s c st Hw Hc) as (st1 & Es & Hw1).
    rewrite Es. apply IH; assumption.
Qed.

(** C1.  The interpreter calls [await s] while no bit of [s] is set in
    [active_events]: the call stores [s] in [mp_blocking_events] and
    control passes to the event cothread.  Notifications on channels
    that raise no bit of [s] leave it waiting.  The first notification on
    a channel whose source is [s] resumes the interpreter within that one
    call of [notified]: the assertion holds, the bits of [s] are cleared,
    [mp_blocking_events] is [mp_event_source_none] again, and [await] has
    returned into the call it was issued from. *)
Theorem await_slow_path (st : State) (s : Z) (pc : entry_stmt)
        (others : list Z) (ch : Z) :
  running pc st -> event_stopped st ->
  Z.land (active_events st) s = 0 ->
  channel_source ch = Some s -> s <> 0 ->
  Forall (unrelated s) others ->
  exists st1 st2 st3,
    step (interp_await s) st = Some st1 /\
    waiting pc s st1 /\
    active_events st1 = active_events st /\
    run (map microkit_notified others) st1 = Some st2 /\
    waiting pc s st2 /\
    step (microkit_notified ch) st2 = Some st3 /\
    running pc st3 /\
    ev_frame st3 = ev_in_notified /\
    mp_blocking_events st3 = mp_event_source_none /\
    active_events st3 = Z.land (Z.lor (active_events st2) s) (Z.lnot s) /\
    (forall k, Z.testbit s k = true ->
               Z.testbit (active_events st3) k = false) /\
    (forall k, Z.testbit s k = false ->
               Z.testbit (active_events st3) k =
               Z.testbit (active_events st2) k) /\
    trace st3 =
    trace st2 ++ [call_process_rx; call_pyb_lwip_poll;
                  call_fs_process_completions; call_co_switch t_mp].
Proof.
  intros Hr Hst Hz Hc Hs Hall.
  set (st1 := event_resumed
                (set_interp_frame (mp_in_await pc s)
                   (co_switch t_event (set_mp_blocking_events s st)))).
  assert (Hw1 : waiting pc s st1).
  { destruct Hr as (Hh & _ & _). unfold waiting, idle, st1. fields. auto 10. }
  destruct (waiting_unrelated_run pc s others st1 Hw1 Hall)
    as (st2 & Hrun & Hw2).
  pose proof Hw2 as (Hidle & Hf & Hb & Hz2).
  set (sw := notified_switch ch (pumped st2)).
  assert (Ha : active_events sw = Z.lor (active_events st2) s)
    by (unfold sw; fields; rewrite Hc; reflexivity).
  assert (Hbl : mp_blocking_events sw = s) by (unfold sw; fields; exact Hb).
  assert (Hnz : Z.land (active_events sw) s <> 0)
    by (rewrite Ha, land_lor_self; assumption).
  exists st1, st2.
  eexists. split.
  { apply moves_step. eapply moves_await_yield; eassumption. }
  split; [exact Hw1|].
  split; [unfold st1; fields; reflexivity|].
  split; [exact Hrun|].
  split; [exact Hw2|].
  split.
  { apply moves_step.
    eapply moves_notified_resume with (st1 := sw);
      [exact Hidle|reflexivity| |exact Hf|right; exact Hnz].
    rewrite Hbl. exact Hnz. }
  destruct Hidle as (Hh & _ & _).
  unfold running. fold sw. simpl. rewrite Ha.
  assert (Hhs : halted sw = false) by (unfold sw; fields; exact Hh).
  assert (Htr : trace sw = trace st2 ++ notified_prefix ch)
    by apply switched_trace.
  rewrite Hhs, Htr.
  repeat split; try reflexivity.
  - intros k Hk. rewrite testbit_land_lnot, Hk. apply andb_false_r.
  - intros k Hk. rewrite testbit_land_lnot, Z.lor_spec, Hk.
    rewrite orb_false_r. apply andb_true_r.
  - unfold notified_prefix, known_channel. rewrite Hc.
    rewrite app_nil_r, <- app_assoc. reflexivity.
Qed.

(** ** The dispatcher *)

Lemma stmt_effect_not_notified pc :
  is_notified_effect (stmt_effect pc) = false.
Proof.
  destruct pc; simpl; try reflexivity.
  destruct (EXEC_MODULE build); reflexivity.
Qed.

Lemma event_resumed_trace st :
  trace (event_resumed st) =
  trace st ++ match ev_frame st with
              | ev_in_notified => [call_mpnet_handle_notify]
              | _ => []
              end.
Proof.
  unfold event_resumed.
  destruct (ev_frame st); simpl; rewrite ?app_nil_r; reflexivity.
Qed.

Lemma no_notified_effect_app l1 l2 :
  no_notified_effect l1 -> no_notified_effect l2 ->
  no_notified_effect (l1 ++ l2).
Proof.
  unfold no_notified_effect. intros H1 H2.
  rewrite forallb_app, H1, H2. reflexivity.
Qed.

(** One move of the interpreter while the event cothread is stopped in
    [notified]: either the interpreter keeps running and [notified] has
    made no further call, or control is back in [notified], which has
    called [mpnet_handle_notify] and returned. *)
Lemma interp_move_in_notified i st st' :
  co_current st = t_mp -> ev_frame st = ev_in_notified ->
  step i st = Some st' ->
  (co_current st' = t_mp /\ ev_frame st' = ev_in_notified /\
   exists mid, trace st' = trace st ++ mid /\ no_notified_effect mid) \/
  (co_current st' = t_event /\ ev_frame st' = ev_idle /\
   trace st' =
   trace st ++ [call_co_switch t_event; call_mpnet_handle_notify]).
Proof.
  intros Hc He Hs. apply step_moves in Hs.
  destruct Hs;
    try match goal with
        | H : idle _ |- _ => destruct H as (_ & ? & _); congruence
        end;
    try congruence.
  - left. simpl. repeat split; try assumption.
    exists []. rewrite app_nil_r. split; reflexivity.
  - right. rewrite event_resumed_trace. fields. rewrite He.
    simpl. rewrite <- app_assoc. auto.
  - left. simpl. repeat split; try assumption.
    exists [stmt_effect pc']. split; [reflexivity|].
    unfold no_notified_effect. simpl.
    rewrite stmt_effect_not_notified. reflexivity.
  - right. rewrite event_resumed_trace. fields. rewrite He.
    simpl. rewrite <- app_assoc. auto.
Qed.

Lemma idle_only_notified i st st' :
  co_current st = t_event -> ev_frame st = ev_idle ->
  step i st = Some st' -> exists ch, i = microkit_notified ch.
Proof.
  intros Hc He Hs. apply step_moves in Hs.
  destruct Hs; eauto;
    try match goal with
        | H : running _ _ |- _ => destruct H as (_ & ? & _); congruence
        end.
  congruence.
Qed.

Lemma interp_run_in_notified ins : forall st st',
  interpreter_only ins ->
  co_current st = t_mp -> ev_frame st = ev_in_notified ->
  run ins st = Some st' ->
  exists mid,
    no_notified_effect mid /\
    ((co_current st' = t_mp /\ ev_frame st' = ev_in_notified /\
      trace st' = trace st ++ mid) \/
     (co_current st' = t_event /\ ev_frame st' = ev_idle /\
      trace st' =
      trace st ++ mid ++ [call_co_switch t_event; call_mpnet_handle_notify])).
Proof.
  induction ins as [|i ins IH]; intros st st' Hio Hc He Hr; simpl in Hr.
  - inversion Hr; subst st'. exists []. split; [reflexivity|].
    left. rewrite app_nil_r. auto.
  - destruct (step i st) as [st1|] eqn:Es; [|discriminate].
    assert (Hio' : interpreter_only ins).
    { intros c Hin. apply (Hio c). right. exact Hin. }
    destruct (interp_move_in_notified i st st1 Hc He Es)
      as [(Hc1 & He1 & mid1 & Ht1 & Hn1)|(Hc1 & He1 & Ht1)].
    + destruct (IH st1 st' Hio' Hc1 He1 Hr) as (mid & Hn & Hcases).
      exists (mid1 ++ mid).
      split; [apply no_notified_effect_app; assumption|].
      destruct Hcases as [(? & ? & Ht)|(? & ? & Ht)]; [left|right];
        repeat split; try assumption;
        rewrite Ht, Ht1, <- !app_assoc; reflexivity.
    + destruct ins as [|j ins].
      * inversion Hr; subst st'. exists []. split; [reflexivity|].
        right. auto.
      * simpl in Hr. destruct (step j st1) as [st2|] eqn:Ej; [|discriminate].
        destruct (idle_only_notified j st1 st2 Hc1 He1 Ej) as (c & ->).
        exfalso. apply (Hio c). right. left. reflexivity.
Qed.

(** C4.  Every call [notified ch] first calls [process_rx],
    [pyb_lwip_poll] and [fs_process_completions], whatever [ch] is; then
    the switch on [ch] runs (on an unknown channel it prints); then the
    interpreter is switched to exactly when the updated [active_events]
    and [mp_blocking_events] have a common bit.  [mpnet_handle_notify] is
    the last call: at once when there is no switch, and otherwise only
    after the interpreter has switched back to the event cothread, with
    no other call of [notified]'s in between. *)
Theorem notified_step_order (ch : Z) (st st' : State) (ins : list input)
        (st'' : State) :
  step (microkit_notified ch) st = Some st' ->
  interpreter_only ins ->
  run ins st' = Some st'' ->
  let st1 := notified_switch ch (pumped st) in
  trace (pumped st) =
  trace st ++ [call_process_rx; call_pyb_lwip_poll;
               call_fs_process_completions] /\
  control (pumped st) = control st /\
  trace st1 = trace st ++ notified_prefix ch /\
  (Z.land (active_events st1) (mp_blocking_events st1) = 0 ->
   st' = emit call_mpnet_handle_notify st1 /\ st'' = st' /\
   idle st' /\
   trace st' = trace st ++ notified_prefix ch ++ [call_mpnet_handle_notify]) /\
  (Z.land (active_events st1) (mp_blocking_events st1) <> 0 ->
   co_current st' = t_mp /\ ev_frame st' = ev_in_notified /\
   exists mid,
     no_notified_effect mid /\
     ((co_current st'' = t_mp /\ ev_frame st'' = ev_in_notified /\
       trace st'' =
       trace st ++ notified_prefix ch ++ [call_co_switch t_mp] ++ mid) \/
      (co_current st'' = t_event /\ ev_frame st'' = ev_idle /\
       trace st'' =
       trace st ++ notified_prefix ch ++ [call_co_switch t_mp] ++ mid
         ++ [call_co_switch t_event; call_mpnet_handle_notify]))).
Proof.
  intros Hs Hio Hr. cbv zeta.
  split; [unfold pumped; simpl; rewrite <- !app_assoc; reflexivity|].
  split; [reflexivity|].
  split; [apply switched_trace|].
  pose proof (switched_trace ch st) as Htr.
  apply step_moves in Hs.
  split.
  - intros Hz. inversion Hs; subst; try congruence.
    assert (Hidle : idle (emit call_mpnet_handle_notify
                            (notified_switch ch (pumped st)))).
    { match goal with H : idle st |- _ => destruct H as (Hh & Hc & He) end.
      unfold idle. fields. auto. }
    split; [reflexivity|]. split.
    + destruct ins as [|j ins]; simpl in Hr; [inversion Hr; reflexivity|].
      destruct (step j _) as [st2|] eqn:Ej; [|discriminate].
      destruct Hidle as (_ & Hc & He).
      destruct (idle_only_notified j _ st2 Hc He Ej) as (c & ->).
      exfalso. apply (Hio c). left. reflexivity.
    + split; [exact Hidle|].
      simpl. rewrite Htr, <- app_assoc. reflexivity.
  - intros Hnz.
    assert (Hst' : co_current st' = t_mp /\ ev_frame st' = ev_in_notified /\
                   exists pre, no_notified_effect pre /\
                     trace st' = trace st ++ notified_prefix ch
                                   ++ [call_co_switch t_mp] ++ pre).
    { inversion Hs; subst; try congruence; simpl;
        rewrite Htr; repeat split.
      - exists []. split; [reflexivity|]. rewrite <- !app_assoc. reflexivity.
      - exists [assertion_failure]. split; [reflexivity|].
        rewrite <- !app_assoc. reflexivity.
      - exists [printf_initialising]. split; [reflexivity|].
        rewrite <- !app_assoc. reflexivity. }
    destruct Hst' as (Hc & He & pre & Hpre & Ht').
    split; [exact Hc|]. split; [exact He|].
    destruct (interp_run_in_notified ins st' st'' Hio Hc He Hr)
      as (mid & Hmid & Hcases).
    exists (pre ++ mid).
    split; [apply no_notified_effect_app; assumption|].
    destruct Hcases as [(? & ? & Ht)|(? & ? & Ht)]; [left|right];
      repeat split; try assumption;
      rewrite Ht, Ht', <- !app_assoc; reflexivity.
Qed.

(** ** Channels *)

Lemma known_channel_labels ch :
  known_channel ch = true <-> In ch case_labels.
Proof.
  unfold known_channel, channel_source, case_labels.
  destruct (ENABLE_FRAMEBUFFER build), (ENABLE_I2C build); simpl;
    repeat match goal with
           | |- context [?a =? ?b] => destruct (Z.eqb_spec a b)
           end; simpl; split; intros H; try reflexivity; try discriminate;
    try (subst; tauto);
    repeat match goal with
           | H : _ \/ _ |- _ => destruct H
           end; try contradiction; congruence.
Qed.

Lemma unknown_channel_source ch :
  known_channel ch = false -> channel_source ch = None.
Proof.
  unfold known_channel.
  destruct (channel_source ch); [discriminate|reflexivity].
Qed.

Lemma unknown_channel_switch ch st :
  known_channel ch = false ->
  notified_switch ch st = emit (printf_unexpected_notification ch) st.
Proof.
  unfold known_channel, channel_source, notified_switch.
  destruct (ENABLE_FRAMEBUFFER build), (ENABLE_I2C build); simpl;
    repeat match goal with
           | |- context [?a =? ?b] => destruct (a =? b)
           end; simpl; intros H; try discriminate; reflexivity.
Qed.

(** While the event cothread is idle, no awaited bit is pending. *)
Lemma consistent_idle_disjoint st :
  consistent st -> idle st ->
  Z.land (active_events st) (mp_blocking_events st) = 0.
Proof.
  intros (_ & Hf) (_ & Hc & He).
  destruct (interp_frame st).
  - destruct Hf as (_ & _ & ->). apply Z.land_0_r.
  - destruct Hf as (? & _). congruence.
  - destruct Hf as (_ & _ & -> & Hz). exact Hz.
  - destruct Hf as (_ & _ & -> & _). apply Z.land_0_r.
Qed.

Lemma reachable_consistent ins rxq txq st :
  run ins (power_on rxq txq) = Some st -> consistent st.
Proof. apply run_consistent, power_on_consistent. Qed.

(** C7.  A channel that is not a case label of the switch is harmless:
    the switch prints the identifier and changes nothing else, and in
    every reachable state in which a notification can be delivered the
    whole call of [notified] returns to the event loop without a halt and
    without a switch, with [active_events] as it was. *)
Theorem unknown_channel_ignored (ch : Z) :
  ~ In ch case_labels ->
  (forall st0, notified_switch ch st0 =
               emit (printf_unexpected_notification ch) st0) /\
  (forall st0, active_events (notified_switch ch st0) = active_events st0) /\
  forall ins rxq txq st,
    run ins (power_on rxq txq) = Some st ->
    idle st ->
    exists st',
    step (microkit_notified ch) st = Some st' /\
    idle st' /\
    active_events st' = active_events st /\
    mp_blocking_events st' = mp_blocking_events st /\
    interp_frame st' = interp_frame st /\
    trace st' =
    trace st ++ [call_process_rx; call_pyb_lwip_poll;
                 call_fs_process_completions;
                 printf_unexpected_notification ch;
                 call_mpnet_handle_notify].
Proof.
  intros Hnot.
  assert (Hk : known_channel ch = false).
  { destruct (known_channel ch) eqn:E; [|reflexivity].
    exfalso. apply Hnot. apply known_channel_labels. exact E. }
  pose proof (unknown_channel_source ch Hk) as Hsrc.
  split; [intros st0; apply unknown_channel_switch; exact Hk|].
  split; [intros st0; rewrite notified_switch_active, Hsrc; reflexivity|].
  intros ins rxq txq st Hrun Hidle.
  pose proof (consistent_idle_disjoint st
                (reachable_consistent _ _ _ _ Hrun) Hidle) as Hz.
  exists (emit call_mpnet_handle_notify (notified_switch ch (pumped st))).
  split.
  - apply moves_step. eapply moves_notified_return;
      [exact Hidle|reflexivity|].
    fields. rewrite Hsrc. exact Hz.
  - destruct Hidle as (Hh & Hc & He). unfold idle. fields.
    rewrite Hsrc, switched_trace. unfold notified_prefix. rewrite Hk.
    rewrite <- !app_assoc. simpl. auto 10.
Qed.

(** C10.  The two ethernet channels are case labels of the switch, so
    nothing is printed for them, and their case is empty: the switch
    returns the state as it got it.  In every reachable state in which a
    notification can be delivered, [notified] on an ethernet channel runs
    the three pumps and [mpnet_handle_notify] and nothing else: no bit is
    raised, the interpreter is not resumed and a pending [await] stays
    pending. *)
Theorem ethernet_channels_raise_nothing (ch : Z) :
  NoDup case_labels ->
  ch = ETH_RX_CH cfg \/ ch = ETH_TX_CH cfg ->
  known_channel ch = true /\
  channel_source ch = None /\
  (forall st0, notified_switch ch st0 = st0) /\
  forall ins rxq txq st,
    run ins (power_on rxq txq) = Some st ->
    idle st ->
    exists st',
    step (microkit_notified ch) st = Some st' /\
    idle st' /\
    active_events st' = active_events st /\
    mp_blocking_events st' = mp_blocking_events st /\
    interp_frame st' = interp_frame st /\
    trace st' =
    trace st ++ [call_process_rx; call_pyb_lwip_poll;
                 call_fs_process_completions; call_mpnet_handle_notify].
Proof.
  intros Hnd Hch.
  assert (Hsw : channel_source ch = None /\
                forall st0, notified_switch ch st0 = st0).
  { unfold channel_source, notified_switch, case_labels in *.
    destruct (ENABLE_FRAMEBUFFER build), (ENABLE_I2C build); simpl in *;
      repeat match goal with
             | H : NoDup (_ :: _) |- _ => inversion H; clear H; subst
             end; simpl in *;
      repeat match goal with
             | |- context [?a =? ?b] => destruct (Z.eqb_spec a b)
             end; simpl;
      try (split; [reflexivity|intros; reflexivity]);
      exfalso; destruct Hch; subst; tauto || congruence. }
  destruct Hsw as (Hsrc & Hsw).
  assert (Hk : known_channel ch = true).
  { unfold known_channel. rewrite Hsrc.
    destruct Hch as [-> | ->]; rewrite Z.eqb_refl; [reflexivity|].
    apply orb_true_r. }
  split; [exact Hk|]. split; [exact Hsrc|]. split; [exact Hsw|].
  intros ins rxq txq st Hrun Hidle.
  pose proof (consistent_idle_disjoint st
                (reachable_consistent _ _ _ _ Hrun) Hidle) as Hz.
  exists (emit call_mpnet_handle_notify (notified_switch ch (pumped st))).
  split.
  - apply moves_step. eapply moves_notified_return;
      [exact Hidle|reflexivity|].
    fields. rewrite Hsrc. exact Hz.
  - destruct Hidle as (Hh & Hc & He). unfold idle. fields.
    rewrite Hsrc, switched_trace. unfold notified_prefix. rewrite Hk.
    rewrite <- !app_assoc. simpl. auto 10.
Qed.

(** ** Bootstrap *)

Lemma serial_enqueue_free_trace q b l st :
  trace (serial_enqueue_free q b l st) =
  trace st ++ [call_serial_enqueue_free q b l].
Proof.
  unfold serial_enqueue_free.
  destruct (SerialQueue.serial_enqueue_free (get_queue q st) b l) as [r h].
  destruct q; reflexivity.
Qed.

Lemma serial_enqueue_free_other q b l st :
  get_queue (other_queue q) (serial_enqueue_free q b l st) =
  get_queue (other_queue q) st.
Proof.
  unfold serial_enqueue_free.
  destruct (SerialQueue.serial_enqueue_free (get_queue q st) b l) as [r h].
  destruct q; reflexivity.
Qed.

(** With room in the free ring the call appends its descriptor. *)
Lemma serial_enqueue_free_room q b l st :
  (List.length (free_slots q st) < free_capacity q st)%nat ->
  free_slots q (serial_enqueue_free q b l st) =
  free_slots q st ++ [SerialQueue.mkDesc b l] /\
  free_capacity q (serial_enqueue_free q b l st) = free_capacity q st /\
  SerialQueue.active (get_queue q (serial_enqueue_free q b l st)) =
  SerialQueue.active (get_queue q st).
Proof.
  unfold free_slots, free_capacity, serial_enqueue_free,
    SerialQueue.serial_enqueue_free, SerialQueue.enqueue, SerialQueue.full.
  intros Hlt.
  destruct (Nat.leb_spec
              (SerialQueue.capacity (SerialQueue.free (get_queue q st)))
              (List.length
                 (SerialQueue.slots (SerialQueue.free (get_queue q st)))));
    [lia|].
  destruct q; simpl; auto.
Qed.

Lemma seed_fold_trace q data l : forall st,
  trace (fold_left
           (fun st i =>
              serial_enqueue_free q (seed_buffer data i) (BUFFER_SIZE cfg) st)
           l st) =
  trace st ++ map (seed_call q data) l.
Proof.
  induction l as [|i l IH]; intros st; simpl.
  - rewrite app_nil_r. reflexivity.
  - rewrite IH, serial_enqueue_free_trace, <- app_assoc. reflexivity.
Qed.

Lemma seed_fold_other q data l : forall st,
  get_queue (other_queue q)
    (fold_left
       (fun st i =>
          serial_enqueue_free q (seed_buffer data i) (BUFFER_SIZE cfg) st)
       l st) =
  get_queue (other_queue q) st.
Proof.
  induction l as [|i l IH]; intros st; simpl; [reflexivity|].
  rewrite IH. apply serial_enqueue_free_other.
Qed.

Lemma seed_fold_room q data l : forall st,
  (List.length (free_slots q st) + List.length l <= free_capacity q st)%nat ->
  let st' := fold_left
               (fun st i =>
                  serial_enqueue_free q (seed_buffer data i)
                    (BUFFER_SIZE cfg) st)
               l st in
  free_slots q st' = free_slots q st ++ map (seed_desc data) l /\
  free_capacity q st' = free_capacity q st /\
  SerialQueue.active (get_queue q st') = SerialQueue.active (get_queue q st).
Proof.
  induction l as [|i l IH]; intros st Hroom; simpl in *.
  - rewrite app_nil_r. auto.
  - destruct (serial_enqueue_free_room q (seed_buffer data i)
                (BUFFER_SIZE cfg) st) as (Hs & Hc & Ha); [lia|].
    destruct (IH (serial_enqueue_free q (seed_buffer data i)
                    (BUFFER_SIZE cfg) st)) as (Hs' & Hc' & Ha').
    { rewrite Hs, Hc, length_app. simpl. lia. }
    rewrite Hs', Hc', Ha', Hs, Hc, Ha, <- app_assoc. auto.
Qed.

Lemma seed_indices_length :
  List.length seed_indices = Z.to_nat (NUM_ENTRIES cfg - 1).
Proof. unfold seed_indices. rewrite length_map, length_seq. reflexivity. Qed.

Lemma init_before_switch_trace st :
  trace (co_switch t_mp (set_ev_frame ev_in_init (init_before_switch st))) =
  trace st ++ init_trace.
Proof.
  unfold init_before_switch, init_trace, seed_free_ring, serial_queue_init.
  destruct (ENABLE_I2C build); simpl;
    rewrite !seed_fold_trace; simpl; rewrite !seed_fold_trace; simpl;
    rewrite <- !app_assoc; simpl; rewrite <- ?app_assoc; reflexivity.
Qed.

Lemma get_queue_emit q e st : get_queue q (emit e st) = get_queue q st.
Proof. destruct q; reflexivity. Qed.

(** The rings after [init], for a free ring that has room for the
    seeds. *)
Lemma init_before_switch_queue q st :
  (List.length (free_slots q st) + List.length seed_indices
   <= free_capacity q st)%nat ->
  free_slots q (init_before_switch st) =
  free_slots q st
    ++ map (seed_desc match q with
                      | rx_queue => serial_rx_data cfg
                      | tx_queue => serial_tx_data cfg
                      end) seed_indices.
Proof.
  intros Hroom. unfold init_before_switch, seed_free_ring, serial_queue_init.
  set (s0 := emit (call_serial_queue_init rx_queue _ _ _) st).
  set (s1 := fold_left _ seed_indices s0).
  set (s1' := emit (call_serial_queue_init tx_queue _ _ _) s1).
  set (s2 := fold_left _ seed_indices s1').
  assert (Hq : forall q, get_queue q
                 (set_interp_frame mp_fresh
                    (emit call_co_derive
                       (emit call_co_active
                          (if ENABLE_I2C build
                           then emit call_i2c_queue_init s2 else s2)))) =
               get_queue q s2).
  { intros q'. destruct (ENABLE_I2C build), q'; reflexivity. }
  unfold free_slots. rewrite !Hq.
  destruct q.
  - assert (Hrx2 : get_queue rx_queue s2 = get_queue rx_queue s1).
    { unfold s2. etransitivity;
        [exact (seed_fold_other tx_queue (serial_tx_data cfg)
                  seed_indices s1')|].
      unfold s1'. apply get_queue_emit. }
    rewrite Hrx2.
    destruct (seed_fold_room rx_queue (serial_rx_data cfg) seed_indices s0)
      as (H & _); [exact Hroom|].
    exact H.
  - assert (Htx1 : get_queue tx_queue s1' = get_queue tx_queue st).
    { unfold s1', s1. rewrite get_queue_emit. etransitivity;
        [exact (seed_fold_other rx_queue (serial_rx_data cfg)
                  seed_indices s0)|].
      unfold s0. apply get_queue_emit. }
    destruct (seed_fold_room tx_queue (serial_tx_data cfg) seed_indices s1')
      as (H & _).
    { unfold free_slots, free_capacity. rewrite Htx1. exact Hroom. }
    unfold free_slots in H. rewrite Htx1 in H. exact H.
Qed.

Lemma filter_seed_same q data l :
  filter (is_enqueue_free q) (map (seed_call q data) l) =
  map (seed_call q data) l.
Proof.
  induction l as [|i l IH]; simpl; [reflexivity|].
  rewrite IH. destruct q; reflexivity.
Qed.

Lemma filter_seed_other q data l :
  filter (is_enqueue_free q) (map (seed_call (other_queue q) data) l) = [].
Proof.
  induction l as [|i l IH]; simpl; [reflexivity|].
  rewrite IH. destruct q; reflexivity.
Qed.

Lemma init_trace_enqueues :
  filter (is_enqueue_free rx_queue) (init_trace ++ [printf_initialising]) =
  map (seed_call rx_queue (serial_rx_data cfg)) seed_indices /\
  filter (is_enqueue_free tx_queue) (init_trace ++ [printf_initialising]) =
  map (seed_call tx_queue (serial_tx_data cfg)) seed_indices.
Proof.
  unfold init_trace. rewrite !filter_app.
  rewrite (filter_seed_same rx_queue), (filter_seed_same tx_queue).
  rewrite (filter_seed_other rx_queue (serial_tx_data cfg)).
  rewrite (filter_seed_other tx_queue (serial_rx_data cfg)).
  destruct (ENABLE_I2C build); simpl; rewrite ?app_nil_r; auto.
Qed.

Lemma seed_call_not_notified q data l :
  no_notified_effect (map (seed_call q data) l).
Proof.
  unfold no_notified_effect. induction l as [|i l IH]; simpl; auto.
Qed.

Lemma init_trace_not_notified :
  no_notified_effect (init_trace ++ [printf_initialising]).
Proof.
  unfold init_trace.
  repeat apply no_notified_effect_app;
    try apply seed_call_not_notified; try reflexivity.
  destruct (ENABLE_I2C build); reflexivity.
Qed.

Lemma step_trace_extends i st st' :
  step i st = Some st' -> exists later, trace st' = trace st ++ later.
Proof.
  intros Hs. apply step_moves in Hs.
  destruct Hs as [st0 | | | | | | | |].
  - exists (init_trace ++ [printf_initialising]).
    unfold enter_stmt.
    change (trace (co_switch t_mp
                     (set_ev_frame ev_in_init (init_before_switch st0)))
            ++ [printf_initialising] =
            trace st0 ++ init_trace ++ [printf_initialising]).
    rewrite init_before_switch_trace, <- app_assoc. reflexivity.
  - subst. simpl. rewrite switched_trace, <- app_assoc. eauto.
  - subst. simpl. rewrite switched_trace, <- app_assoc. eauto.
  - subst. simpl. rewrite switched_trace, <- !app_assoc. eauto.
  - subst. simpl. rewrite switched_trace, <- !app_assoc. eauto.
  - exists []. rewrite app_nil_r. reflexivity.
  - rewrite event_resumed_trace. simpl. rewrite <- app_assoc. eauto.
  - simpl. eauto.
  - rewrite event_resumed_trace. simpl. rewrite <- app_assoc. eauto.
Qed.

Lemma run_trace_extends ins : forall st st',
  run ins st = Some st' -> exists later, trace st' = trace st ++ later.
Proof.
  induction ins as [|i ins IH]; simpl; intros st st' Hr.
  - inversion Hr; subst. exists []. rewrite app_nil_r. reflexivity.
  - destruct (step i st) as [st1|] eqn:Es; [|discriminate].
    destruct (step_trace_extends _ _ _ Es) as (l1 & E1).
    destruct (IH _ _ Hr) as (l2 & E2).
    exists (l1 ++ l2). rewrite E2, E1, app_assoc. reflexivity.
Qed.

(** C8.  [init] calls [serial_enqueue_free] exactly NUM_ENTRIES - 1 times
    on the receive queue and NUM_ENTRIES - 1 times on the transmit queue,
    each time with length BUFFER_SIZE, for the loop indices 0 to
    NUM_ENTRIES - 2 in order; all of it happens before the interpreter is
    first switched to, hence before any call of [notified], and every
    later trace extends this one.  A free ring that starts empty and has
    room for NUM_ENTRIES - 1 descriptors holds exactly these NUM_ENTRIES - 1
    descriptors afterwards. *)
Theorem init_seeds_free_rings (rxq txq : SerialQueue.handle) :
  exists st,
    step microkit_init (power_on rxq txq) = Some st /\
    trace st = init_trace ++ [printf_initialising] /\
    filter (is_enqueue_free rx_queue) (trace st) =
    map (seed_call rx_queue (serial_rx_data cfg)) seed_indices /\
    filter (is_enqueue_free tx_queue) (trace st) =
    map (seed_call tx_queue (serial_tx_data cfg)) seed_indices /\
    List.length seed_indices = Z.to_nat (NUM_ENTRIES cfg - 1) /\
    no_notified_effect (trace st) /\
    (forall ins st',
        run ins st = Some st' -> exists later, trace st' = trace st ++ later) /\
    (SerialQueue.slots (SerialQueue.free rxq) = [] ->
     (Z.to_nat (NUM_ENTRIES cfg - 1)
      <= SerialQueue.capacity (SerialQueue.free rxq))%nat ->
     seeded rx_queue (serial_rx_data cfg) st) /\
    (SerialQueue.slots (SerialQueue.free txq) = [] ->
     (Z.to_nat (NUM_ENTRIES cfg - 1)
      <= SerialQueue.capacity (SerialQueue.free txq))%nat ->
     seeded tx_queue (serial_tx_data cfg) st).
Proof.
  set (st0 := power_on rxq txq).
  set (st := enter_stmt at_printf_initialising
               (co_switch t_mp
                  (set_ev_frame ev_in_init (init_before_switch st0)))).
  assert (Htr : trace st = init_trace ++ [printf_initialising]).
  { unfold st, enter_stmt.
    change (trace (co_switch t_mp
                     (set_ev_frame ev_in_init (init_before_switch st0)))
            ++ [printf_initialising] =
            init_trace ++ [printf_initialising]).
    rewrite (init_before_switch_trace st0). reflexivity. }
  assert (Hseeded : forall q data,
             data = match q with
                    | rx_queue => serial_rx_data cfg
                    | tx_queue => serial_tx_data cfg
                    end ->
             free_slots q st0 = [] ->
             (Z.to_nat (NUM_ENTRIES cfg - 1) <= free_capacity q st0)%nat ->
             seeded q data st).
  { intros q data -> Hempty Hcap.
    assert (Hs : free_slots q st =
                 map (seed_desc match q with
                                | rx_queue => serial_rx_data cfg
                                | tx_queue => serial_tx_data cfg
                                end) seed_indices).
    { change (free_slots q st) with (free_slots q (init_before_switch st0)).
      rewrite init_before_switch_queue.
      - rewrite Hempty. reflexivity.
      - rewrite Hempty, seed_indices_length. simpl. exact Hcap. }
    unfold seeded. rewrite Hs, length_map, seed_indices_length.
    split; [reflexivity|]. split; [reflexivity|].
    apply Forall_forall. intros d Hd. apply in_map_iff in Hd.
    destruct Hd as (i & <- & _). reflexivity. }
  exists st.
  split; [unfold step; simpl; apply init_eq|].
  split; [exact Htr|].
  rewrite Htr.
  split; [apply init_trace_enqueues|].
  split; [apply init_trace_enqueues|].
  split; [apply seed_indices_length|].
  split; [apply init_trace_not_notified|].
  split.
  - intros ins st' Hr. rewrite <- Htr. eapply run_trace_extends. exact Hr.
  - split; intros Hempty Hcap; apply Hseeded; auto.
Qed.

(** ** The awaited event *)

Lemma step_blocking i st st' :
  step i st = Some st' ->
  mp_blocking_events st' = mp_blocking_events st \/
  mp_blocking_events st' = mp_event_source_none \/
  exists s, i = interp_await s /\ mp_blocking_events st' = s.
Proof.
  intros Hs. apply step_moves in Hs.
  destruct Hs; subst; fields; eauto.
Qed.

Lemma run_blocking ins : forall st st',
  run ins st = Some st' ->
  mp_blocking_events st' = mp_blocking_events st \/
  mp_blocking_events st' = mp_event_source_none \/
  exists s, In (interp_await s) ins /\ mp_blocking_events st' = s.
Proof.
  induction ins as [|i ins IH]; simpl; intros st st' Hr.
  - inversion Hr; subst. auto.
  - destruct (step i st) as [st1|] eqn:Es; [|discriminate].
    destruct (IH _ _ Hr) as [E|[E|(s & Hin & E)]].
    + rewrite E.
      destruct (step_blocking _ _ _ Es) as [E1|[E1|(s & -> & E1)]]; auto.
      right; right. exists s. split; [left; reflexivity|exact E1].
    + auto.
    + right; right. exists s. split; [right; exact Hin|exact E].
Qed.

Lemma consistent_blocking_suspended st :
  consistent st -> mp_blocking_events st <> mp_event_source_none ->
  suspended_in_await st.
Proof.
  intros (_ & Hf) Hb. unfold suspended_in_await.
  destruct (interp_frame st) as [|pc|pc s|].
  - destruct Hf as (_ & _ & ?). contradiction.
  - destruct Hf as (_ & _ & ?). contradiction.
  - destruct Hf as (Hc & _ & E & _). rewrite E. eauto.
  - destruct Hf as (_ & _ & ? & _). contradiction.
Qed.

Lemma consistent_running_unblocked st :
  consistent st -> co_current st = t_mp ->
  mp_blocking_events st = mp_event_source_none.
Proof.
  intros (_ & Hf) Hc.
  destruct (interp_frame st) as [|pc|pc s|].
  - destruct Hf as (? & _). congruence.
  - destruct Hf as (_ & _ & ?). assumption.
  - destruct Hf as (? & _). congruence.
  - destruct Hf as (? & _). congruence.
Qed.

(** C6.  In every state reachable from power-on, [mp_blocking_events] is
    either [mp_event_source_none] or the argument of the one [await] the
    interpreter is stopped in, so it holds one event source tag whenever
    callers pass single tags to [await]; it is different from
    [mp_event_source_none] only while the interpreter cothread is stopped
    inside [await] and the event cothread runs.  [await] stores its
    argument right before its [co_switch], and when it returns after being
    resumed the variable is [mp_event_source_none] again. *)
Theorem awaited_event_discipline (tag : Z -> Prop) (ins : list input)
        (rxq txq : SerialQueue.handle) (st : State) :
  run ins (power_on rxq txq) = Some st ->
  (forall s, In (interp_await s) ins -> tag s) ->
  (mp_blocking_events st = mp_event_source_none \/
   tag (mp_blocking_events st)) /\
  (mp_blocking_events st <> mp_event_source_none ->
   suspended_in_await st) /\
  (co_current st = t_mp ->
   mp_blocking_events st = mp_event_source_none) /\
  (forall s st0,
      Z.land (active_events st0) s = 0 ->
      await_enter s st0 =
      Yielded (co_switch t_event (set_mp_blocking_events s st0))) /\
  (forall s st0 st1,
      await_resume s st0 = Returned st1 ->
      mp_blocking_events st1 = mp_event_source_none).
Proof.
  intros Hrun Htag.
  pose proof (reachable_consistent _ _ _ _ Hrun) as Hc.
  split.
  - destruct (run_blocking _ _ _ Hrun) as [E|[E|(s & Hin & E)]].
    + left. rewrite E. reflexivity.
    + left. exact E.
    + right. rewrite E. apply Htag. exact Hin.
  - split; [apply consistent_blocking_suspended; exact Hc|].
    split; [apply consistent_running_unblocked; exact Hc|].
    split.
    + intros s st0 Hz. unfold await_enter.
      apply truthy_false in Hz. rewrite Hz. reflexivity.
    + intros s st0 st1 Hres.
      destruct (await_resume_cases s st0) as [(E & _)|(E & _)];
        rewrite E in Hres; inversion Hres; reflexivity.
Qed.

(** ** The interpreter's exit *)

Arguments pyexec_calls t : simpl never.

Lemma pyexec_calls_app t d :
  pyexec_calls (t ++ d) = (pyexec_calls t + pyexec_calls d)%nat.
Proof. unfold pyexec_calls. rewrite filter_app, length_app. reflexivity. Qed.

Lemma pyexec_calls_seed q data l :
  pyexec_calls (map (seed_call q data) l) = 0%nat.
Proof. induction l as [|i l IH]; simpl; auto. Qed.

Lemma pyexec_calls_init_trace : pyexec_calls init_trace = 0%nat.
Proof.
  unfold init_trace. rewrite !pyexec_calls_app, !pyexec_calls_seed.
  destruct (ENABLE_I2C build); reflexivity.
Qed.

Lemma pyexec_calls_prefix ch : pyexec_calls (notified_prefix ch) = 0%nat.
Proof.
  unfold notified_prefix. destruct (known_channel ch); reflexivity.
Qed.

(** In a frozen-module build the trace holds one pyexec call once the
    entry routine has reached it, and none before. *)
Lemma step_pyexec_once m i st st' :
  EXEC_MODULE build = Some m ->
  consistent st ->
  pyexec_calls (trace st) = pyexec_reached (interp_frame st) ->
  step i st = Some st' ->
  pyexec_calls (trace st') = pyexec_reached (interp_frame st').
Proof.
  intros Hm (_ & Hf) Hcount Hs. apply step_moves in Hs.
  destruct Hs as [st0 ? ? Hpo| | | |ch st0 st1 Hidle ? ? Hfresh| | | |].
  - unfold enter_stmt.
    change (pyexec_calls
              (trace (co_switch t_mp
                        (set_ev_frame ev_in_init (init_before_switch st0)))
               ++ [printf_initialising]) = 0%nat).
    rewrite init_before_switch_trace, !pyexec_calls_app,
      pyexec_calls_init_trace, Hcount.
    destruct (interp_frame st0); try reflexivity;
      destruct Hf as (? & ? & ?); congruence.
  - subst. fields. rewrite switched_trace, !pyexec_calls_app,
      pyexec_calls_prefix, Hcount. unfold pyexec_calls; simpl; lia.
  - subst. fields. rewrite switched_trace, !pyexec_calls_app,
      pyexec_calls_prefix, Hcount.
    match goal with H : interp_frame _ = _ |- _ => rewrite H end.
    unfold pyexec_calls; simpl; lia.
  - subst. fields. rewrite switched_trace, !pyexec_calls_app,
      pyexec_calls_prefix, Hcount. unfold pyexec_calls; simpl; lia.
  - exfalso. rewrite Hfresh in Hf. destruct Hidle as (_ & _ & He).
    destruct Hf as (_ & ? & _). congruence.
  - simpl. exact Hcount.
  - rewrite event_resumed_trace. fields.
    rewrite !pyexec_calls_app, Hcount.
    match goal with H : running _ _ |- _ => destruct H as (_ & _ & Hi) end.
    rewrite Hi. destruct (ev_frame st); unfold pyexec_calls; simpl; lia.
  - match goal with H : running _ _ |- _ => destruct H as (_ & _ & Hi) end.
    cbn. rewrite pyexec_calls_app, Hcount, Hi.
    match goal with H : next_stmt _ = _ |- _ => rename H into Hn end.
    destruct pc; simpl in Hn; inversion Hn; subst; simpl;
      try rewrite Hm; try reflexivity.
    rewrite Hm in Hn. discriminate.
  - match goal with H : running _ _ |- _ => destruct H as (_ & _ & Hi) end.
    match goal with H : next_stmt _ = _ |- _ => rename H into Hn end.
    rewrite event_resumed_trace. fields.
    rewrite !pyexec_calls_app, Hcount, Hi.
    destruct pc; simpl in Hn; try discriminate.
    destruct (ev_frame st); unfold pyexec_calls; simpl; lia.
Qed.

Lemma run_pyexec_once m ins : forall st st',
  EXEC_MODULE build = Some m ->
  consistent st ->
  pyexec_calls (trace st) = pyexec_reached (interp_frame st) ->
  run ins st = Some st' ->
  pyexec_calls (trace st') = pyexec_reached (interp_frame st').
Proof.
  induction ins as [|i ins IH]; simpl; intros st st' Hm Hc Hp Hr.
  - inversion Hr; subst; exact Hp.
  - destruct (step i st) as [st1|] eqn:Es; [|discriminate].
    apply (IH st1 st' Hm); [| |exact Hr].
    + eapply step_consistent; eassumption.
    + eapply step_pyexec_once; eassumption.
Qed.

(** Once the entry routine has ended, only notifications happen and the
    interpreter stays where it is. *)
Lemma step_after_final i st st' :
  consistent st -> interp_frame st = mp_final ->
  step i st = Some st' ->
  (exists ch, i = microkit_notified ch) /\
  interp_frame st' = mp_final /\ co_current st' = t_event /\
  exists d, trace st' = trace st ++ d /\
            forallb is_notified_effect d = true.
Proof.
  intros (_ & Hf) Hi Hs. rewrite Hi in Hf.
  destruct Hf as (Hc & He & Hb & _).
  destruct (idle_only_notified _ _ _ Hc He Hs) as (ch & ->).
  split; [eauto|].
  apply step_moves in Hs. inversion Hs; subst; try congruence.
  fields. rewrite switched_trace.
    repeat split; try assumption.
    exists (notified_prefix ch ++ [call_mpnet_handle_notify]).
    rewrite <- app_assoc. split; [reflexivity|].
    unfold notified_prefix. destruct (known_channel ch); reflexivity.
Qed.

Lemma run_after_final ins : forall st st',
  consistent st -> interp_frame st = mp_final ->
  run ins st = Some st' ->
  (forall i, In i ins -> exists ch, i = microkit_notified ch) /\
  interp_frame st' = mp_final /\ co_current st' = t_event /\
  exists d, trace st' = trace st ++ d /\
            forallb is_notified_effect d = true.
Proof.
  induction ins as [|i ins IH]; simpl; intros st st' Hc Hi Hr.
  - inversion Hr; subst. split; [intros i []|].
    split; [exact Hi|].
    destruct Hc as (_ & Hf). rewrite Hi in Hf.
    split; [apply Hf|]. exists []. rewrite app_nil_r. auto.
  - destruct (step i st) as [st1|] eqn:Es; [|discriminate].
    destruct (step_after_final _ _ _ Hc Hi Es)
      as (Hn & Hi1 & Hc1 & d1 & Ht1 & Hd1).
    destruct (IH st1 st' (step_consistent _ _ _ Hc Es) Hi1 Hr)
      as (Hall & Hi' & Hc' & d & Ht & Hd).
    split.
    + intros j [<-|Hin]; [exact Hn|apply Hall; exact Hin].
    + repeat split; try assumption.
      exists (d1 ++ d). rewrite Ht, Ht1, <- app_assoc.
      split; [reflexivity|]. rewrite forallb_app, Hd1, Hd. reflexivity.
Qed.

(** ** The masks are C ints

    [active_events] and [mp_blocking_events] are declared int.  The
    operations of the file on them are [&], [|] and [~], which on two's
    complement ints are [Z.land], [Z.lor] and [Z.lnot] and stay in range:
    no wrap-around has to be written out. *)

Lemma int_range_shiftr a :
  int_range a <-> Z.shiftr a 31 = 0 \/ Z.shiftr a 31 = -1.
Proof.
  unfold int_range. rewrite Z.shiftr_div_pow2 by lia.
  change (2 ^ 31) with 2147483648.
  pose proof (Z.div_mod a 2147483648 ltac:(lia)).
  pose proof (Z.mod_pos_bound a 2147483648 ltac:(lia)).
  lia.
Qed.

Lemma int_range_land a b :
  int_range a -> int_range b -> int_range (Z.land a b).
Proof.
  rewrite !int_range_shiftr, Z.shiftr_land.
  intros [-> | ->] [-> | ->]; simpl; auto.
Qed.

Lemma int_range_lor a b :
  int_range a -> int_range b -> int_range (Z.lor a b).
Proof.
  rewrite !int_range_shiftr, Z.shiftr_lor.
  intros [-> | ->] [-> | ->]; simpl; auto.
Qed.

Lemma int_range_lnot a : int_range a -> int_range (Z.lnot a).
Proof. unfold int_range, Z.lnot. lia. Qed.

Lemma channel_source_int ch s :
  int_sources -> channel_source ch = Some s -> int_range s.
Proof.
  intros (H1 & H2 & H3 & H4 & H5). unfold channel_source.
  destruct (ch =? SERIAL_RX_CH cfg); [intros E; inversion E; subst; auto|].
  destruct (ch =? TIMER_CH cfg); [intros E; inversion E; subst; auto|].
  destruct (ENABLE_FRAMEBUFFER build && (ch =? FRAMEBUFFER_VMM_CH cfg));
    [intros E; inversion E; subst; auto|].
  destruct (ch =? NFS_CH cfg); [intros E; inversion E; subst; auto|].
  destruct (ENABLE_I2C build && (ch =? I2C_CH cfg));
    [intros E; inversion E; subst; auto|discriminate].
Qed.

Lemma raised_int ch a :
  int_sources -> int_range a ->
  int_range (match channel_source ch with
             | Some s => Z.lor a s
             | None => a
             end).
Proof.
  intros Hs Ha. destruct (channel_source ch) as [s|] eqn:E; [|exact Ha].
  apply int_range_lor; [exact Ha|]. eapply channel_source_int; eassumption.
Qed.

Lemma step_int_range i st st' :
  int_sources -> (forall s, i = interp_await s -> int_range s) ->
  consistent st ->
  int_range (active_events st) -> int_range (mp_blocking_events st) ->
  step i st = Some st' ->
  int_range (active_events st') /\ int_range (mp_blocking_events st').
Proof.
  intros Hsrc Hi (_ & Hf) Ha Hb Hs. split.
  - destruct (step_active _ _ _ Hs)
      as [E|[(s & -> & E)|[(ch & -> & E)|(ch & pc & s & -> & Hw & _ & E)]]];
      rewrite E.
    + exact Ha.
    + apply int_range_land; [exact Ha|].
      apply int_range_lnot, Hi. reflexivity.
    + apply raised_int; assumption.
    + apply int_range_land; [apply raised_int; assumption|].
      apply int_range_lnot. rewrite Hw in Hf.
      destruct Hf as (_ & _ & <- & _). exact Hb.
  - destruct (step_blocking _ _ _ Hs) as [E|[E|(s & -> & E)]]; rewrite E.
    + exact Hb.
    + unfold int_range, mp_event_source_none. lia.
    + apply Hi. reflexivity.
Qed.

(** In every state reachable from power-on both masks are ints, when the
    event sources of the header and the arguments of [await] are. *)
Lemma masks_stay_int ins : forall st st',
  int_sources -> int_awaits ins -> consistent st ->
  int_range (active_events st) -> int_range (mp_blocking_events st) ->
  run ins st = Some st' ->
  int_range (active_events st') /\ int_range (mp_blocking_events st').
Proof.
  induction ins as [|i ins IH]; simpl; intros st st' Hsrc Hin Hc Ha Hb Hr.
  - inversion Hr; subst. auto.
  - destruct (step i st) as [st1|] eqn:Es; [|discriminate].
    destruct (step_int_range i st st1 Hsrc) as (Ha1 & Hb1); auto.
    { intros s ->. apply Hin. left. reflexivity. }
    apply (IH st1 st'); auto.
    + intros s Hs. apply Hin. right. exact Hs.
    + eapply step_consistent; eassumption.
Qed.

(** ** Further properties of the scheduler *)

(** X1.  Whenever the event cothread has control (before [init], or
    between two notifications), no event the interpreter waits for is
    pending: the interpreter is never left stopped in [await] while a bit
    of its source is set in [active_events]. *)
Theorem no_missed_wakeup (ins : list input) (rxq txq : SerialQueue.handle)
        (st : State) :
  run ins (power_on rxq txq) = Some st ->
  co_current st = t_event ->
  Z.land (active_events st) (mp_blocking_events st) = 0 /\
  forall pc s,
    interp_frame st = mp_in_await pc s ->
    Z.land (active_events st) s = 0.
Proof.
  intros Hrun Hc.
  pose proof (reachable_consistent _ _ _ _ Hrun) as (_ & Hf).
  destruct (interp_frame st) as [|pc|pc s|] eqn:Ei.
  - destruct Hf as (_ & _ & ->). split; [apply Z.land_0_r|discriminate].
  - destruct Hf as (? & _). congruence.
  - destruct Hf as (_ & _ & -> & Hz). split; [exact Hz|].
    intros pc' s' E. inversion E; subst. exact Hz.
  - destruct Hf as (_ & _ & -> & _). split; [apply Z.land_0_r|discriminate].
Qed.


(** ** Traces of whole runs *)

Lemma occurrences_app f t d :
  occurrences f (t ++ d) = (occurrences f t + occurrences f d)%nat.
Proof. unfold occurrences. rewrite filter_app, length_app. reflexivity. Qed.

Lemma switch_targets_app t d :
  switch_targets (t ++ d) = switch_targets t ++ switch_targets d.
Proof.
  induction t as [|e t IH]; simpl; [reflexivity|].
  destruct e; simpl; rewrite ?IH; reflexivity.
Qed.

Lemma occurrences_seed f q data l :
  (forall b n, f (call_serial_enqueue_free q b n) = false) ->
  occurrences f (map (seed_call q data) l) = 0%nat.
Proof.
  intros Hf. unfold occurrences.
  induction l as [|i l IH]; simpl; [reflexivity|].
  unfold seed_call at 1. rewrite Hf. exact IH.
Qed.

Lemma switch_targets_seed q data l :
  switch_targets (map (seed_call q data) l) = [].
Proof. induction l as [|i l IH]; simpl; auto. Qed.

Lemma switch_targets_init_trace : switch_targets init_trace = [t_mp].
Proof.
  unfold init_trace. rewrite !switch_targets_app, !switch_targets_seed.
  destruct (ENABLE_I2C build); reflexivity.
Qed.

Lemma switch_targets_prefix ch : switch_targets (notified_prefix ch) = [].
Proof. unfold notified_prefix. destruct (known_channel ch); reflexivity. Qed.

Lemma switch_targets_stmt pc : switch_targets [stmt_effect pc] = [].
Proof.
  destruct pc; try reflexivity. simpl.
  destruct (EXEC_MODULE build); reflexivity.
Qed.

Lemma ping_pong_snoc n : forall from,
  ping_pong from (S n) =
  ping_pong from n ++ [other_cothread (after_switches from n)].
Proof.
  induction n as [|n IH]; intros from; [reflexivity|].
  change (ping_pong from (S (S n)))
    with (other_cothread from :: ping_pong (other_cothread from) (S n)).
  rewrite IH. reflexivity.
Qed.

Lemma after_switches_snoc n : forall from,
  after_switches from (S n) = other_cothread (after_switches from n).
Proof.
  induction n as [|n IH]; intros from; [reflexivity|].
  change (after_switches from (S (S n)))
    with (after_switches (other_cothread from) (S n)).
  rewrite IH. reflexivity.
Qed.

(** The count of [f] in what the three kinds of trace pieces hold. *)
Lemma occurrences_init_trace f :
  (forall q b n, f (call_serial_enqueue_free q b n) = false) ->
  (forall q b x y, f (call_serial_queue_init q b x y) = false) ->
  f call_i2c_queue_init = false -> f call_co_active = false ->
  f call_co_derive = false -> f (call_co_switch t_mp) = false ->
  occurrences f init_trace = 0%nat.
Proof.
  intros Hs Hq Hi Ha Hd Hc. unfold init_trace.
  rewrite !occurrences_app, !occurrences_seed by (intros; apply Hs).
  unfold occurrences. simpl. rewrite !Hq, Ha, Hd, Hc.
  destruct (ENABLE_I2C build); simpl; rewrite ?Hi; reflexivity.
Qed.

Lemma occurrences_stmt f pc :
  (forall pc', f (stmt_effect pc') = false) ->
  occurrences f [stmt_effect pc] = 0%nat.
Proof. intros H. unfold occurrences. simpl. rewrite H. reflexivity. Qed.

Lemma pump_not_stmt f :
  f = is_assertion_failure \/ f = is_process_rx \/ f = is_pyb_lwip_poll \/
  f = is_fs_process_completions \/ f = is_mpnet_handle_notify ->
  forall pc, f (stmt_effect pc) = false.
Proof.
  intros Hf pc.
  destruct Hf as [->|[->|[->|[->| ->]]]]; destruct pc; simpl;
    try reflexivity; destruct (EXEC_MODULE build); reflexivity.
Qed.

Lemma trace_enter_init st :
  trace (enter_stmt at_printf_initialising
           (co_switch t_mp (set_ev_frame ev_in_init (init_before_switch st)))) =
  trace st ++ init_trace ++ [printf_initialising].
Proof.
  unfold enter_stmt.
  change (trace (co_switch t_mp
                   (set_ev_frame ev_in_init (init_before_switch st)))
          ++ [printf_initialising] =
          trace st ++ init_trace ++ [printf_initialising]).
  rewrite init_before_switch_trace, <- app_assoc. reflexivity.
Qed.

Lemma power_on_regular rxq txq : trace_regular (power_on rxq txq).
Proof.
  unfold trace_regular. simpl. repeat split; try reflexivity.
  exists 0%nat. auto.
Qed.

Arguments init_trace : simpl never.
Arguments occurrences f t : simpl never.
Arguments notified_prefix ch : simpl never.

Ltac count_occurrences :=
  rewrite ?occurrences_app;
  rewrite ?occurrences_init_trace by (intros; reflexivity);
  rewrite ?occurrences_stmt by (apply pump_not_stmt; auto 6);
  unfold notified_prefix;
  try match goal with
      | |- context [known_channel ?c] => destruct (known_channel c)
      end;
  unfold occurrences in *; simpl in *; lia.

Ltac one_more_switch n Hsw Hcur :=
  exists (S n); rewrite ping_pong_snoc, after_switches_snoc, <- Hcur;
  rewrite ?switch_targets_app, Hsw, ?switch_targets_init_trace,
    ?switch_targets_prefix;
  simpl; rewrite ?app_nil_r;
  match goal with
  | H : co_current _ = _ |- _ => rewrite H
  end; split; reflexivity.

Ltac no_more_switch n Hsw Hcur :=
  exists n; rewrite ?switch_targets_app, Hsw, ?switch_targets_prefix,
    ?switch_targets_stmt;
  simpl; rewrite ?app_nil_r; split; [reflexivity|exact Hcur].

Lemma step_regular i st st' :
  consistent st -> trace_regular st -> step i st = Some st' ->
  trace_regular st'.
Proof.
  intros (_ & Hf) (Haf & Hlw & Hfs & Hmp & n & Hsw & Hcur) Hs.
  apply step_moves in Hs. unfold trace_regular.
  destruct Hs as [st Hh Hc He
                 |ch st st1 (Hh & Hc & He) -> Hz
                 |ch st st1 pc s (Hh & Hc & He) -> Hnz Hi Hok
                 |ch st st1 pc s (Hh & Hc & He) -> Hnz Hi Hnd Hz
                 |ch st st1 (Hh & Hc & He) -> Hnz Hi
                 |s pc st (Hh & Hc & Hi) Hnz
                 |s pc st (Hh & Hc & Hi) Hz Hst
                 |pc pc' st (Hh & Hc & Hi) Hn
                 |pc st (Hh & Hc & Hi) Hn Hst].
  - rewrite trace_enter_init.
    unfold owed_notify in *. rewrite He in Hmp. cbn [ev_frame enter_stmt].
    cbn.
    repeat split; try count_occurrences.
    one_more_switch n Hsw Hcur.
  - cbn [trace emit]. rewrite switched_trace.
    unfold owed_notify in *. rewrite He in Hmp. fields. rewrite He.
    repeat split; try count_occurrences.
    no_more_switch n Hsw Hcur.
  - cbn [trace emit co_switch set_interp_frame set_active_events
           set_mp_blocking_events set_co_current set_ev_frame].
    rewrite switched_trace.
    unfold owed_notify in *. rewrite He in Hmp. cbn.
    repeat split; try count_occurrences.
    one_more_switch n Hsw Hcur.
  - exfalso. rewrite Hi in Hf. destruct Hf as (_ & _ & Hb & _).
    apply Hnz. autorewrite with fields in *. cbn in *. rewrite Hb. exact Hz.
  - exfalso. rewrite Hi in Hf. destruct Hf as (_ & ? & _). congruence.
  - cbn. unfold owed_notify in *. cbn.
    repeat split; try assumption.
    exists n. auto.
  - rewrite event_resumed_trace. unfold owed_notify in *. fields.
    destruct Hst as [E|E]; rewrite E in *; cbn.
    + repeat split; try count_occurrences.
      one_more_switch n Hsw Hcur.
    + repeat split; try count_occurrences.
      one_more_switch n Hsw Hcur.
  - cbn [trace emit enter_stmt set_interp_frame].
    unfold owed_notify in *. cbn.
    repeat split; try count_occurrences.
    no_more_switch n Hsw Hcur.
  - rewrite event_resumed_trace. unfold owed_notify in *. fields.
    destruct Hst as [E|E]; rewrite E in *; cbn.
    + repeat split; try count_occurrences.
      one_more_switch n Hsw Hcur.
    + repeat split; try count_occurrences.
      one_more_switch n Hsw Hcur.
Qed.

Lemma run_regular ins : forall st st',
  consistent st -> trace_regular st -> run ins st = Some st' ->
  trace_regular st'.
Proof.
  induction ins as [|i ins IH]; simpl; intros st st' Hc Hreg Hr.
  - inversion Hr; subst; exact Hreg.
  - destruct (step i st) as [st1|] eqn:Es; [|discriminate].
    apply (IH st1 st'); [| |exact Hr].
    + eapply step_consistent; eassumption.
    + eapply step_regular; eassumption.
Qed.

Lemma reachable_regular ins rxq txq st :
  run ins (power_on rxq txq) = Some st -> trace_regular st.
Proof.
  apply run_regular; [apply power_on_consistent|apply power_on_regular].
Qed.

(** X2.  No reachable state is stuck on an undefined switch.  Between
    notifications every notification can be handled: [notified] never
    switches to an interpreter cothread that is running or whose entry
    routine has ended.  While the interpreter runs, [await] and the return
    of the current collaborator call always find the event cothread
    stopped at a [co_switch] it can return from.  The assertion of [await]
    has never failed, so the process never spins in [__assert_func]. *)
Theorem never_stuck (ins : list input) (rxq txq : SerialQueue.handle)
        (st : State) :
  run ins (power_on rxq txq) = Some st ->
  halted st = false /\
  occurrences is_assertion_failure (trace st) = 0%nat /\
  (ev_frame st = ev_idle ->
   forall ch, exists st', step (microkit_notified ch) st = Some st') /\
  (co_current st = t_mp ->
   (forall s, exists st', step (interp_await s) st = Some st') /\
   exists st', step interp_return st = Some st') /\
  (ev_frame st = ev_power_on ->
   exists st', step microkit_init st = Some st').
Proof.
  intros Hrun.
  pose proof (reachable_consistent _ _ _ _ Hrun) as Hcons.
  pose proof Hcons as (Hh & Hf).
  split; [exact Hh|].
  split; [apply (reachable_regular _ _ _ _ Hrun)|].
  split; [|split].
  - intros He ch.
    assert (Hidle : idle st).
    { unfold idle. repeat split; try assumption.
      destruct (interp_frame st); destruct Hf as (? & Hx & ?);
        try assumption; try congruence.
      destruct Hx; congruence. }
    pose proof (consistent_idle_disjoint st Hcons Hidle) as Hz.
    set (st1 := notified_switch ch (pumped st)).
    destruct (Z.eq_dec (Z.land (active_events st1) (mp_blocking_events st1)) 0)
      as [E|E].
    + eexists. apply moves_step.
      eapply moves_notified_return; [exact Hidle|reflexivity|exact E].
    + destruct (interp_frame st) as [|pc|pc s|] eqn:Ei.
      * destruct Hf as (_ & ? & _). congruence.
      * destruct Hf as (_ & [?|?] & _); congruence.
      * destruct Hf as (_ & _ & Hb & _).
        eexists. apply moves_step.
        eapply moves_notified_resume;
          [exact Hidle|reflexivity|exact E|exact Ei|].
        right. fold st1. unfold st1 in E. autorewrite with fields in E.
        cbn in E. rewrite Hb in E. unfold st1. autorewrite with fields.
        cbn. exact E.
      * destruct Hf as (_ & _ & Hb & _). exfalso. apply E.
        unfold st1. autorewrite with fields. cbn. rewrite Hb.
        apply Z.land_0_r.
  - intros Hc.
    destruct (interp_frame st) as [|pc|pc s0|] eqn:Ei;
      try (destruct Hf as (? & _); congruence).
    destruct Hf as (_ & Hst & _).
    assert (Hr : running pc st) by (unfold running; auto).
    split.
    + intros s.
      destruct (Z.eq_dec (Z.land (active_events st) s) 0) as [E|E].
      * eexists. apply moves_step. eapply moves_await_yield; eassumption.
      * eexists. apply moves_step. eapply moves_await_fast; eassumption.
    + destruct (next_stmt pc) as [pc'|] eqn:En.
      * eexists. apply moves_step. eapply moves_return_next; eassumption.
      * eexists. apply moves_step. eapply moves_return_final; eassumption.
  - intros He. unfold step. rewrite Hh, He.
    destruct (interp_frame st) as [|pc|pc s0|] eqn:Ei.
    + destruct Hf as (-> & _). rewrite init_eq. eauto.
    + destruct Hf as (_ & [?|?] & _); congruence.
    + destruct Hf as (_ & ? & _). congruence.
    + destruct Hf as (_ & ? & _). congruence.
Qed.

(** X3.  In every reachable state [process_rx], [pyb_lwip_poll] and
    [fs_process_completions] have been called equally often, once per call
    of [notified], and [mpnet_handle_notify] has been called once for every
    call of [notified] that has returned: the only call still owing it is
    the one the event cothread is stopped in while the interpreter runs. *)
Theorem notify_bookkeeping_balanced (ins : list input)
        (rxq txq : SerialQueue.handle) (st : State) :
  run ins (power_on rxq txq) = Some st ->
  occurrences is_pyb_lwip_poll (trace st) =
  occurrences is_process_rx (trace st) /\
  occurrences is_fs_process_completions (trace st) =
  occurrences is_process_rx (trace st) /\
  (occurrences is_mpnet_handle_notify (trace st) + owed_notify st)%nat =
  occurrences is_process_rx (trace st) /\
  (co_current st = t_event ->
   occurrences is_mpnet_handle_notify (trace st) =
   occurrences is_process_rx (trace st)).
Proof.
  intros Hrun.
  destruct (reachable_regular _ _ _ _ Hrun) as (_ & Hlw & Hfs & Hmp & _).
  split; [exact Hlw|]. split; [exact Hfs|]. split; [exact Hmp|].
  intros Hc.
  pose proof (reachable_consistent _ _ _ _ Hrun) as (_ & Hf).
  unfold owed_notify in Hmp.
  destruct (interp_frame st); destruct Hf as (Hc' & He & _);
    try congruence; rewrite He in Hmp; lia.
Qed.

(** X4.  The [co_switch] calls of every reachable trace go back and forth:
    the first is to [t_mp], each next one to the other cothread, and the
    cothread that runs is the target of the last one.  So [co_switch] is
    never called with the cothread that is already running. *)
Theorem switches_alternate (ins : list input)
        (rxq txq : SerialQueue.handle) (st : State) :
  run ins (power_on rxq txq) = Some st ->
  exists n,
    switch_targets (trace st) = ping_pong t_event n /\
    co_current st = after_switches t_event n.
Proof.
  intros Hrun.
  destruct (reachable_regular _ _ _ _ Hrun) as (_ & _ & _ & _ & H).
  exact H.
Qed.

(** ** Notifications between two waits *)

Lemma waiting_parked pc s st : waiting pc s st -> parked st.
Proof. intros (Hi & _ & Hb & Hz). split; [exact Hi|]. rewrite Hb. exact Hz. Qed.

Lemma raised_testbit ch a k :
  Z.testbit (match channel_source ch with
             | Some s => Z.lor a s
             | None => a
             end) k = Z.testbit a k || raises_bit k ch.
Proof.
  unfold raises_bit. destruct (channel_source ch).
  - apply Z.lor_spec.
  - rewrite orb_false_r. reflexivity.
Qed.

Lemma parked_unrelated st ch :
  parked st -> unrelated (mp_blocking_events st) ch ->
  exists st',
    step (microkit_notified ch) st = Some st' /\
    parked st' /\
    mp_blocking_events st' = mp_blocking_events st /\
    interp_frame st' = interp_frame st /\
    forall k, Z.testbit (active_events st') k =
              Z.testbit (active_events st) k || raises_bit k ch.
Proof.
  intros (Hidle & Hz) Hu.
  set (st1 := notified_switch ch (pumped st)).
  assert (Hz1 : Z.land (active_events st1) (mp_blocking_events st1) = 0).
  { unfold st1. fields.
    destruct (channel_source ch) as [s'|] eqn:Ec; [|exact Hz].
    apply land_lor_unrelated; [exact Hz|]. apply Hu. exact Ec. }
  exists (emit call_mpnet_handle_notify st1). split.
  - apply moves_step.
    eapply moves_notified_return; [exact Hidle|reflexivity|exact Hz1].
  - destruct Hidle as (Hh & Hc & He).
    unfold st1 in Hz1. autorewrite with fields in Hz1. cbn in Hz1.
    unfold parked, idle, st1. fields.
    repeat split; auto. intros k. apply raised_testbit.
Qed.

Lemma parked_unrelated_run chs : forall st,
  parked st -> Forall (unrelated (mp_blocking_events st)) chs ->
  exists st',
    run (map microkit_notified chs) st = Some st' /\
    parked st' /\
    mp_blocking_events st' = mp_blocking_events st /\
    interp_frame st' = interp_frame st /\
    forall k, Z.testbit (active_events st') k =
              Z.testbit (active_events st) k || existsb (raises_bit k) chs.
Proof.
  induction chs as [|c chs IH]; intros st Hp Hall; simpl.
  - exists st. split; [reflexivity|]. split; [exact Hp|].
    split; [reflexivity|]. split; [reflexivity|].
    intros k. rewrite orb_false_r. reflexivity.
  - inversion Hall as [|? ? Hc Hrest]; subst.
    destruct (parked_unrelated st c Hp Hc)
      as (st1 & Es & Hp1 & Hb1 & Hi1 & Hk1).
    rewrite Es.
    destruct (IH st1 Hp1) as (st' & Er & Hp' & Hb' & Hi' & Hk').
    { rewrite Hb1. exact Hrest. }
    exists st'. split; [exact Er|]. split; [exact Hp'|].
    split; [congruence|]. split; [congruence|].
    intros k. rewrite Hk', Hk1, orb_assoc. reflexivity.
Qed.

Lemma existsb_same_members (f : Z -> bool) l l' :
  (forall c, In c l <-> In c l') -> existsb f l = existsb f l'.
Proof.
  intros H. destruct (existsb f l) eqn:E, (existsb f l') eqn:E';
    try reflexivity.
  - apply existsb_exists in E. destruct E as (x & Hin & Hx).
    assert (existsb f l' = true) by
      (apply existsb_exists; exists x; split; [apply H; exact Hin|exact Hx]).
    congruence.
  - apply existsb_exists in E'. destruct E' as (x & Hin & Hx).
    assert (existsb f l = true) by
      (apply existsb_exists; exists x; split; [apply H; exact Hin|exact Hx]).
    congruence.
Qed.

(** X5.  While the interpreter does not wait for them, notifications
    coalesce: after any sequence of notifications a bit of [active_events]
    is set exactly if it was set before or one of the channels raises it.
    Two sequences over the same set of channels (in any order, with any
    repetitions) therefore leave the same [active_events]; how often and in
    which order the events arrived is not kept. *)
Theorem notifications_coalesce (st : State) (chs chs' : list Z) :
  parked st ->
  Forall (unrelated (mp_blocking_events st)) chs ->
  Forall (unrelated (mp_blocking_events st)) chs' ->
  (forall c, In c chs <-> In c chs') ->
  exists st1 st2,
    run (map microkit_notified chs) st = Some st1 /\
    run (map microkit_notified chs') st = Some st2 /\
    (forall k, Z.testbit (active_events st1) k =
               Z.testbit (active_events st) k || existsb (raises_bit k) chs) /\
    active_events st1 = active_events st2 /\
    mp_blocking_events st1 = mp_blocking_events st /\
    interp_frame st1 = interp_frame st.
Proof.
  intros Hp Hall Hall' Hsame.
  destruct (parked_unrelated_run chs st Hp Hall)
    as (st1 & E1 & _ & Hb1 & Hi1 & Hk1).
  destruct (parked_unrelated_run chs' st Hp Hall')
    as (st2 & E2 & _ & _ & _ & Hk2).
  exists st1, st2. repeat split; try assumption.
  apply Z.bits_inj'. intros k _.
  rewrite Hk1, Hk2, (existsb_same_members (raises_bit k) chs chs' Hsame).
  reflexivity.
Qed.

(** X6.  One event satisfies one wait.  When [await s] returns on the
    fast path no bit of [s] is left in [active_events], so a second
    [await s] issued right after it does not return: it stores [s] in
    [mp_blocking_events] and the interpreter waits for a new
    notification. *)
Theorem event_consumed_once (st : State) (s : Z) (pc : entry_stmt) :
  running pc st -> event_stopped st ->
  Z.land (active_events st) s <> 0 ->
  exists st1 st2,
    step (interp_await s) st = Some st1 /\
    running pc st1 /\
    Z.land (active_events st1) s = 0 /\
    step (interp_await s) st1 = Some st2 /\
    waiting pc s st2 /\
    run [interp_await s; interp_await s] st = Some st2.
Proof.
  intros Hr Hst Hnz.
  set (st1 := set_active_events (Z.land (active_events st) (Z.lnot s)) st).
  assert (Hr1 : running pc st1) by exact Hr.
  assert (Hz1 : Z.land (active_events st1) s = 0).
  { unfold st1. cbn. rewrite <- Z.land_assoc, (Z.land_comm (Z.lnot s) s),
      Z.land_lnot_diag. apply Z.land_0_r. }
  assert (E1 : step (interp_await s) st = Some st1).
  { apply moves_step. eapply moves_await_fast; eassumption. }
  assert (E2 : step (interp_await s) st1 =
               Some (event_resumed
                       (set_interp_frame (mp_in_await pc s)
                          (co_switch t_event
                             (set_mp_blocking_events s st1))))).
  { apply moves_step.
    eapply moves_await_yield; [exact Hr1|exact Hz1|exact Hst]. }
  exists st1. eexists. split; [exact E1|]. split; [exact Hr1|].
  split; [exact Hz1|]. split; [exact E2|]. split.
  - destruct Hr as (Hh & _ & _). unfold waiting, idle. fields.
    repeat split; auto.
  - simpl. rewrite E1, E2. reflexivity.
Qed.

(** X7.  Wake-ups are exact.  While the interpreter is stopped in
    [await s], a notification resumes it exactly if its channel raises a
    bit of [s]: then [await] returns with [mp_blocking_events] cleared and
    no bit of [s] left pending; any other notification, known channel or
    not, leaves the interpreter waiting for [s]. *)
Theorem wakeup_exact (st : State) (s : Z) (pc : entry_stmt) (ch : Z) :
  waiting pc s st ->
  exists st',
    step (microkit_notified ch) st = Some st' /\
    (co_current st' = t_mp <->
     exists s', channel_source ch = Some s' /\ Z.land s' s <> 0) /\
    (co_current st' = t_mp ->
     running pc st' /\
     mp_blocking_events st' = mp_event_source_none /\
     Z.land (active_events st') s = 0) /\
    (co_current st' = t_event -> waiting pc s st').
Proof.
  intros Hw.
  assert (Hdec : (exists s', channel_source ch = Some s' /\ Z.land s' s <> 0)
                 \/ unrelated s ch).
  { unfold unrelated. destruct (channel_source ch) as [s'|].
    - destruct (Z.eq_dec (Z.land s' s) 0) as [E|E].
      + right. intros s0 H0. inversion H0; subst. exact E.
      + left. eauto.
    - right. discriminate. }
  destruct Hdec as [(s' & Hc & Hrel)|Hu].
  - destruct Hw as (Hidle & Hf & Hb & Hz).
    set (sw := notified_switch ch (pumped st)).
    assert (Ha : active_events sw = Z.lor (active_events st) s')
      by (unfold sw; fields; rewrite Hc; reflexivity).
    assert (Hbl : mp_blocking_events sw = s) by (unfold sw; fields; exact Hb).
    assert (Hnz : Z.land (active_events sw) s <> 0).
    { rewrite Ha, Z.land_lor_distr_l, Hz, Z.lor_0_l. exact Hrel. }
    eexists. split.
    { apply moves_step.
      eapply moves_notified_resume with (st1 := sw);
        [exact Hidle|reflexivity| |exact Hf|right; exact Hnz].
      rewrite Hbl. exact Hnz. }
    destruct Hidle as (Hh & _ & _).
    assert (Hhs : halted sw = false) by (unfold sw; fields; exact Hh).
    fold sw. cbn. split; [split; [eauto|reflexivity]|]. split.
    + intros _. unfold running. cbn. rewrite Hhs.
      repeat split.
      rewrite <- Z.land_assoc, (Z.land_comm (Z.lnot s) s), Z.land_lnot_diag.
      apply Z.land_0_r.
    + discriminate.
  - destruct (waiting_unrelated pc s ch st Hw Hu) as (st' & Es & Hw').
    exists st'. split; [exact Es|].
    pose proof Hw' as ((_ & Hc' & _) & _).
    split; [split|split].
    + congruence.
    + intros (s' & Hc & Hrel). exfalso. apply Hrel. apply Hu. exact Hc.
    + congruence.
    + intros _. exact Hw'.
Qed.

(** ** The bits of [active_events] *)

Lemma channel_source_within ch s k :
  channel_source ch = Some s -> Z.testbit s k = true ->
  Z.testbit all_sources k = true.
Proof.
  unfold channel_source, all_sources. rewrite !Z.lor_spec.
  destruct (ch =? SERIAL_RX_CH cfg);
    [intros E Hk; inversion E; subst; rewrite Hk; reflexivity|].
  destruct (ch =? TIMER_CH cfg);
    [intros E Hk; inversion E; subst; rewrite Hk;
     rewrite ?orb_true_r; reflexivity|].
  destruct (ENABLE_FRAMEBUFFER build); simpl.
  - destruct (ch =? FRAMEBUFFER_VMM_CH cfg);
      [intros E Hk; inversion E; subst; rewrite Hk;
       rewrite ?orb_true_r; reflexivity|].
    destruct (ch =? NFS_CH cfg);
      [intros E Hk; inversion E; subst; rewrite Hk;
       rewrite ?orb_true_r; reflexivity|].
    destruct (ENABLE_I2C build); simpl; [|discriminate].
    destruct (ch =? I2C_CH cfg); [|discriminate].
    intros E Hk; inversion E; subst; rewrite Hk;
      rewrite ?orb_true_r; reflexivity.
  - destruct (ch =? NFS_CH cfg);
      [intros E Hk; inversion E; subst; rewrite Hk;
       rewrite ?orb_true_r; reflexivity|].
    destruct (ENABLE_I2C build); simpl; [|discriminate].
    destruct (ch =? I2C_CH cfg); [|discriminate].
    intros E Hk; inversion E; subst; rewrite Hk;
      rewrite ?orb_true_r; reflexivity.
Qed.

Lemma step_within_sources i st st' :
  (forall k, Z.testbit (active_events st) k = true ->
             Z.testbit all_sources k = true) ->
  step i st = Some st' ->
  forall k, Z.testbit (active_events st') k = true ->
            Z.testbit all_sources k = true.
Proof.
  intros Hin Hs k.
  assert (Hraised : forall ch,
             Z.testbit (match channel_source ch with
                        | Some s => Z.lor (active_events st) s
                        | None => active_events st
                        end) k = true -> Z.testbit all_sources k = true).
  { intros ch. rewrite raised_testbit. unfold raises_bit.
    intros H. apply orb_true_iff in H. destruct H as [H|H]; [auto|].
    destruct (channel_source ch) as [s|] eqn:Ec; [|discriminate].
    eapply channel_source_within; eassumption. }
  destruct (step_active _ _ _ Hs)
    as [E|[(s & _ & E)|[(ch & _ & E)|(ch & pc & s & _ & _ & _ & E)]]];
    rewrite E.
  - apply Hin.
  - rewrite testbit_land_lnot. intros H. apply andb_true_iff in H.
    apply Hin. apply H.
  - apply Hraised.
  - rewrite testbit_land_lnot. intros H. apply andb_true_iff in H.
    apply (Hraised ch). apply H.
Qed.

Lemma run_within_sources ins : forall st st',
  (forall k, Z.testbit (active_events st) k = true ->
             Z.testbit all_sources k = true) ->
  run ins st = Some st' ->
  forall k, Z.testbit (active_events st') k = true ->
            Z.testbit all_sources k = true.
Proof.
  induction ins as [|i ins IH]; simpl; intros st st' Hin Hr.
  - inversion Hr; subst. exact Hin.
  - destruct (step i st) as [st1|] eqn:Es; [|discriminate].
    apply (IH st1 st'); [|exact Hr].
    eapply step_within_sources; eassumption.
Qed.

Lemma disjoint_from_subset a b s :
  (forall k, Z.testbit a k = true -> Z.testbit b k = true) ->
  Z.land b s = 0 -> Z.land a s = 0.
Proof.
  intros Hsub Hz. apply Z.bits_inj'. intros k _.
  rewrite Z.land_spec, Z.bits_0.
  destruct (Z.testbit a k) eqn:Ea; [|reflexivity].
  assert (E : Z.testbit (Z.land b s) k = false) by (rewrite Hz; apply Z.bits_0).
  rewrite Z.land_spec, (Hsub k Ea) in E. exact E.
Qed.

(** X8.  Only the event sources that the switch of [notified] can raise
    in this build ever appear in [active_events]: in every reachable state
    each bit that is set is a bit of [all_sources]. *)
Theorem mask_within_sources (ins : list input)
        (rxq txq : SerialQueue.handle) (st : State) :
  run ins (power_on rxq txq) = Some st ->
  (forall k, Z.testbit (active_events st) k = true ->
             Z.testbit all_sources k = true) /\
  Z.land (active_events st) (Z.lnot all_sources) = 0.
Proof.
  intros Hrun.
  assert (H : forall k, Z.testbit (active_events st) k = true ->
                        Z.testbit all_sources k = true).
  { eapply run_within_sources; [|exact Hrun].
    intros k. simpl. rewrite Z.bits_0. discriminate. }
  split; [exact H|].
  apply Z.bits_inj'. intros k Hk.
  rewrite Z.land_spec, Z.lnot_spec, Z.bits_0 by exact Hk.
  destruct (Z.testbit (active_events st) k) eqn:Ea; [|reflexivity].
  rewrite (H k Ea). reflexivity.
Qed.

(** X9.  A wait that no channel can satisfy never ends.  When the
    interpreter calls [await s] for an [s] that shares no bit with the
    sources of this build's switch (the empty mask
    [mp_event_source_none], or a source whose case is compiled out), the
    call takes the slow path, and whatever notifications follow, the
    interpreter stays stopped in it: [await] has no timeout and no other
    way out. *)
Theorem await_unraised_source_never_returns (ins : list input)
        (rxq txq : SerialQueue.handle) (st : State) (s : Z)
        (chs : list Z) :
  run ins (power_on rxq txq) = Some st ->
  co_current st = t_mp ->
  Z.land all_sources s = 0 ->
  exists pc st',
    interp_frame st = mp_in pc /\
    run (interp_await s :: map microkit_notified chs) st = Some st' /\
    waiting pc s st'.
Proof.
  intros Hrun Hc Hs.
  pose proof (reachable_consistent _ _ _ _ Hrun) as (Hh & Hf).
  destruct (interp_frame st) as [|pc|pc s0|] eqn:Ei;
    try (destruct Hf as (? & _); congruence).
  destruct Hf as (_ & Hst & Hb).
  assert (Hz : Z.land (active_events st) s = 0).
  { eapply disjoint_from_subset; [|exact Hs].
    eapply run_within_sources; [|exact Hrun].
    intros k. simpl. rewrite Z.bits_0. discriminate. }
  set (st1 := event_resumed
                (set_interp_frame (mp_in_await pc s)
                   (co_switch t_event (set_mp_blocking_events s st)))).
  assert (E1 : step (interp_await s) st = Some st1).
  { apply moves_step. eapply moves_await_yield; try eassumption.
    unfold running. auto. }
  assert (Hw1 : waiting pc s st1).
  { unfold waiting, idle, st1. fields. auto 10. }
  destruct (waiting_unrelated_run pc s chs st1 Hw1) as (st' & Er & Hw').
  { apply Forall_forall. intros c _ s' Hc'.
    apply Z.bits_inj'. intros k _. rewrite Z.land_spec, Z.bits_0.
    destruct (Z.testbit s' k) eqn:Ek; [|reflexivity].
    assert (E : Z.testbit (Z.land all_sources s) k = false)
      by (rewrite Hs; apply Z.bits_0).
    rewrite Z.land_spec, (channel_source_within c s' k Hc' Ek) in E.
    exact E. }
  exists pc, st'. split; [reflexivity|]. split; [|exact Hw'].
  simpl. rewrite E1. exact Er.
Qed.

(** ** The calls of the entry routine *)

Lemma filter_entry_seed q data l :
  filter is_entry_effect (map (seed_call q data) l) = [].
Proof. induction l as [|i l IH]; simpl; auto. Qed.

Lemma filter_entry_init_trace : filter is_entry_effect init_trace = [].
Proof.
  unfold init_trace. rewrite !filter_app, !filter_entry_seed.
  destruct (ENABLE_I2C build); reflexivity.
Qed.

Lemma filter_entry_prefix ch :
  filter is_entry_effect (notified_prefix ch) = [].
Proof. unfold notified_prefix. destruct (known_channel ch); reflexivity. Qed.

Lemma stmt_effect_is_entry pc : is_entry_effect (stmt_effect pc) = true.
Proof.
  destruct pc; try reflexivity. simpl.
  destruct (EXEC_MODULE build); reflexivity.
Qed.

Lemma concat_repeat_snoc (A : Type) (c : list A) n :
  concat (repeat c (S n)) = concat (repeat c n) ++ c.
Proof.
  induction n as [|n IH]; simpl; [rewrite app_nil_r; reflexivity|].
  simpl in IH. rewrite IH, app_assoc, IH. reflexivity.
Qed.

Lemma entry_calls_next n pc pc' :
  next_stmt pc = Some pc' ->
  (EXEC_MODULE build <> None -> n = 0%nat) ->
  exists n',
    entry_calls n pc ++ [stmt_effect pc'] = entry_calls n' pc' /\
    (EXEC_MODULE build <> None -> n' = 0%nat).
Proof.
  intros Hn Hfrozen.
  destruct pc; simpl in Hn;
    try (inversion Hn; subst; exists n; split; [|exact Hfrozen];
         unfold entry_calls; cbn [stmt_position cycle_stmts firstn map];
         rewrite <- app_comm_cons, <- app_assoc; reflexivity).
  destruct (EXEC_MODULE build) eqn:Em; [discriminate|].
  inversion Hn; subst. exists (S n). split; [|intros H; congruence].
  unfold entry_calls. rewrite concat_repeat_snoc.
  cbn [stmt_position cycle_stmts firstn map].
  rewrite <- app_comm_cons, <- !app_assoc. reflexivity.
Qed.

Lemma step_entry_regular i st st' :
  consistent st -> entry_regular st -> step i st = Some st' ->
  entry_regular st'.
Proof.
  intros (_ & Hf) Hreg Hs. apply step_moves in Hs.
  unfold entry_regular in *.
  destruct Hs as [st Hh Hc He
                 |ch st st1 (Hh & Hc & He) -> Hz
                 |ch st st1 pc s (Hh & Hc & He) -> Hnz Hi Hok
                 |ch st st1 pc s (Hh & Hc & He) -> Hnz Hi Hnd Hz
                 |ch st st1 (Hh & Hc & He) -> Hnz Hi
                 |s pc st (Hh & Hc & Hi) Hnz
                 |s pc st (Hh & Hc & Hi) Hz Hst
                 |pc pc' st (Hh & Hc & Hi) Hn
                 |pc st (Hh & Hc & Hi) Hn Hst].
  - rewrite trace_enter_init. cbn [interp_frame enter_stmt set_interp_frame].
    exists 0%nat. split; [|reflexivity].
    rewrite !filter_app, filter_entry_init_trace.
    destruct (interp_frame st); try (rewrite Hreg; reflexivity);
      destruct Hf as (? & ? & ?); congruence.
  - cbn [trace emit]. rewrite switched_trace. fields.
    rewrite !filter_app, filter_entry_prefix. simpl.
    rewrite !app_nil_r. exact Hreg.
  - cbn [trace emit co_switch set_interp_frame set_active_events
           set_mp_blocking_events set_co_current set_ev_frame].
    rewrite switched_trace. cbn [interp_frame set_interp_frame].
    rewrite Hi in Hreg.
    rewrite !filter_app, filter_entry_prefix. simpl.
    rewrite !app_nil_r. exact Hreg.
  - exfalso. rewrite Hi in Hf. destruct Hf as (_ & _ & Hb & _).
    apply Hnz. autorewrite with fields in *. cbn in *. rewrite Hb. exact Hz.
  - exfalso. rewrite Hi in Hf. destruct Hf as (_ & ? & _). congruence.
  - cbn. exact Hreg.
  - rewrite event_resumed_trace. fields. rewrite Hi in Hreg.
    rewrite !filter_app.
    destruct Hst as [E|E]; rewrite E; simpl; rewrite !app_nil_r; exact Hreg.
  - cbn [trace emit enter_stmt set_interp_frame interp_frame].
    rewrite Hi in Hreg. destruct Hreg as (n & Hcalls & Hfrozen).
    rewrite filter_app, Hcalls. simpl. rewrite stmt_effect_is_entry.
    apply entry_calls_next; assumption.
  - rewrite event_resumed_trace. fields. rewrite Hi in Hreg.
    destruct Hreg as (n & Hcalls & Hfrozen).
    assert (pc = at_printf_exited /\ EXEC_MODULE build <> None) as (-> & Hm).
    { destruct pc; simpl in Hn; try discriminate.
      destruct (EXEC_MODULE build); [split; congruence|discriminate]. }
    rewrite (Hfrozen Hm) in Hcalls.
    rewrite !filter_app, Hcalls.
    destruct Hst as [E|E]; rewrite E; simpl; rewrite ?app_nil_r; reflexivity.
Qed.

Lemma run_entry_regular ins : forall st st',
  consistent st -> entry_regular st -> run ins st = Some st' ->
  entry_regular st'.
Proof.
  induction ins as [|i ins IH]; simpl; intros st st' Hc Hreg Hr.
  - inversion Hr; subst; exact Hreg.
  - destruct (step i st) as [st1|] eqn:Es; [|discriminate].
    apply (IH st1 st'); [| |exact Hr].
    + eapply step_consistent; eassumption.
    + eapply step_entry_regular; eassumption.
Qed.

(** X10.  The calls the entry routine makes, read off any reachable
    trace, are the banner printf once, then whole passes from
    [mp_stack_ctrl_init] to the exit printf, then the calls of the current
    pass up to the statement the routine is at.  So the runtime is set up
    ([mp_stack_ctrl_init], [gc_init], [mp_init], [init_nfs],
    [init_networking], in this order) before every run of the interpreter
    and torn down ([gc_sweep_all], [mp_deinit]) after it; a restart of the
    REPL repeats the set-up but not the banner; and with EXEC_MODULE there
    is a single pass. *)
Theorem entry_routine_call_order (ins : list input)
        (rxq txq : SerialQueue.handle) (st : State) :
  run ins (power_on rxq txq) = Some st ->
  match interp_frame st with
  | mp_fresh => filter is_entry_effect (trace st) = []
  | mp_in pc | mp_in_await pc _ =>
      exists n,
        filter is_entry_effect (trace st) = entry_calls n pc /\
        (EXEC_MODULE build <> None -> n = 0%nat)
  | mp_final =>
      filter is_entry_effect (trace st) = entry_calls 0 at_printf_exited
  end.
Proof.
  intros Hrun.
  apply (run_entry_regular ins (power_on rxq txq) st);
    [apply power_on_consistent|reflexivity|exact Hrun].
Qed.

(** ** The seeded buffers *)

Lemma seed_indices_range i :
  In i seed_indices <-> 0 <= i < NUM_ENTRIES cfg - 1.
Proof.
  unfold seed_indices. rewrite in_map_iff. split.
  - intros (n & <- & Hin). apply in_seq in Hin. lia.
  - intros Hi. exists (Z.to_nat i). split; [lia|]. apply in_seq. lia.
Qed.

Lemma seed_indices_NoDup : NoDup seed_indices.
Proof.
  unfold seed_indices. apply NoDup_map_NoDup_ForallPairs; [|apply seq_NoDup].
  intros a b _ _ H. lia.
Qed.

Lemma seed_buffer_exact data i :
  0 < BUFFER_SIZE cfg -> 0 <= data ->
  data + (2 * NUM_ENTRIES cfg - 1) * BUFFER_SIZE cfg <= 2 ^ 64 ->
  0 <= i < NUM_ENTRIES cfg - 1 ->
  seed_buffer data i = data + (i + NUM_ENTRIES cfg) * BUFFER_SIZE cfg.
Proof.
  intros HB Hd Hfit Hi. unfold seed_buffer. apply Z.mod_small. nia.
Qed.

(** X11.  When the offsets fit a C int and the data region lies in the
    address space without wrapping around, the buffers [init] hands to a
    free ring are the slots NUM_ENTRIES to 2 * NUM_ENTRIES - 2 of the
    region: each starts at data + (i + NUM_ENTRIES) * BUFFER_SIZE, none
    lies in the first NUM_ENTRIES slots, the last slot of the region is not
    used, and two different buffers are at least BUFFER_SIZE bytes apart,
    so the seeded buffers do not overlap. *)
Theorem seeded_buffers_disjoint (data : Z) :
  0 < BUFFER_SIZE cfg -> 0 <= data ->
  (2 * NUM_ENTRIES cfg - 1) * BUFFER_SIZE cfg < 2 ^ 31 ->
  data + (2 * NUM_ENTRIES cfg - 1) * BUFFER_SIZE cfg <= 2 ^ 64 ->
  (forall i,
      In i seed_indices ->
      seed_buffer data i = data + (i + NUM_ENTRIES cfg) * BUFFER_SIZE cfg /\
      data + NUM_ENTRIES cfg * BUFFER_SIZE cfg <= seed_buffer data i /\
      seed_buffer data i + BUFFER_SIZE cfg <=
      data + (2 * NUM_ENTRIES cfg - 1) * BUFFER_SIZE cfg) /\
  (forall i j,
      In i seed_indices -> In j seed_indices -> i < j ->
      seed_buffer data i + BUFFER_SIZE cfg <= seed_buffer data j) /\
  NoDup (map (seed_buffer data) seed_indices).
Proof.
  intros HB Hd _ Hfit.
  split; [|split].
  - intros i Hi. apply seed_indices_range in Hi.
    rewrite (seed_buffer_exact data i HB Hd Hfit Hi). nia.
  - intros i j Hi Hj Hlt.
    apply seed_indices_range in Hi. apply seed_indices_range in Hj.
    rewrite (seed_buffer_exact data i HB Hd Hfit Hi),
      (seed_buffer_exact data j HB Hd Hfit Hj). nia.
  - apply NoDup_map_NoDup_ForallPairs; [|apply seed_indices_NoDup].
    intros i j Hi Hj E.
    apply seed_indices_range in Hi. apply seed_indices_range in Hj.
    rewrite (seed_buffer_exact data i HB Hd Hfit Hi),
      (seed_buffer_exact data j HB Hd Hfit Hj) in E. nia.
Qed.

(** ** Before the interpreter first waits *)

Lemma step_before_first_wait i st st' :
  consistent st ->
  (ev_frame st = ev_power_on \/ ev_frame st = ev_in_init ->
   occurrences is_notified_effect (trace st) = 0%nat) ->
  step i st = Some st' ->
  ev_frame st' = ev_power_on \/ ev_frame st' = ev_in_init ->
  occurrences is_notified_effect (trace st') = 0%nat.
Proof.
  intros (_ & Hf) Hinv Hs. apply step_moves in Hs.
  destruct Hs as [st Hh Hc He
                 |ch st st1 (Hh & Hc & He) -> Hz
                 |ch st st1 pc s (Hh & Hc & He) -> Hnz Hi Hok
                 |ch st st1 pc s (Hh & Hc & He) -> Hnz Hi Hnd Hz
                 |ch st st1 (Hh & Hc & He) -> Hnz Hi
                 |s pc st (Hh & Hc & Hi) Hnz
                 |s pc st (Hh & Hc & Hi) Hz Hst
                 |pc pc' st (Hh & Hc & Hi) Hn
                 |pc st (Hh & Hc & Hi) Hn Hst].
  - intros _. rewrite trace_enter_init, !occurrences_app,
      (Hinv (or_introl He)).
    rewrite occurrences_init_trace by (intros; reflexivity). reflexivity.
  - intros [E|E]; cbn in E; autorewrite with fields in E; cbn in E;
      congruence.
  - intros [E|E]; cbn in E; discriminate.
  - intros [E|E]; cbn in E; discriminate.
  - intros [E|E]; cbn in E; discriminate.
  - exact Hinv.
  - intros [E|E]; autorewrite with fields in E; discriminate.
  - intros Hst'. cbn [trace emit enter_stmt set_interp_frame].
    rewrite occurrences_app, (Hinv Hst').
    apply occurrences_stmt. intros p. apply stmt_effect_not_notified.
  - intros [E|E]; autorewrite with fields in E; discriminate.
Qed.

Lemma run_before_first_wait ins : forall st st',
  consistent st ->
  (ev_frame st = ev_power_on \/ ev_frame st = ev_in_init ->
   occurrences is_notified_effect (trace st) = 0%nat) ->
  run ins st = Some st' ->
  ev_frame st' = ev_power_on \/ ev_frame st' = ev_in_init ->
  occurrences is_notified_effect (trace st') = 0%nat.
Proof.
  induction ins as [|i ins IH]; simpl; intros st st' Hc Hinv Hr.
  - inversion Hr; subst; exact Hinv.
  - destruct (step i st) as [st1|] eqn:Es; [|discriminate].
    apply (IH st1 st'); [| |exact Hr].
    + eapply step_consistent; eassumption.
    + eapply step_before_first_wait; eassumption.
Qed.

(** X13.  [init] does not return before the interpreter first yields.
    As long as the event cothread is still inside [init] (stopped at its
    [co_switch (t_mp)]), no notification has been handled: the trace
    holds no pump call, no unexpected-channel printf and no
    [mpnet_handle_notify].  An interpreter that never calls [await] and
    never exits keeps every notification undelivered. *)
Theorem no_notification_before_first_wait (ins : list input)
        (rxq txq : SerialQueue.handle) (st : State) :
  run ins (power_on rxq txq) = Some st ->
  ev_frame st = ev_power_on \/ ev_frame st = ev_in_init ->
  occurrences is_notified_effect (trace st) = 0%nat /\
  forall ch, ~ In (microkit_notified ch) ins.
Proof.
  intros Hrun Hst. split.
  - eapply run_before_first_wait;
      [apply power_on_consistent|reflexivity|exact Hrun|exact Hst].
  - intros ch Hin.
    assert (Hocc : occurrences is_notified_effect (trace st) = 0%nat).
    { eapply run_before_first_wait;
        [apply power_on_consistent|reflexivity|exact Hrun|exact Hst]. }
    apply in_split in Hin. destruct Hin as (l1 & l2 & ->).
    clear Hst.
    assert (Hsplit : exists sa sb,
               run l1 (power_on rxq txq) = Some sa /\
               step (microkit_notified ch) sa = Some sb /\
               run l2 sb = Some st).
    { revert Hrun. generalize (power_on rxq txq).
      induction l1 as [|i l1 IH]; simpl; intros s0 Hr.
      - destruct (step (microkit_notified ch) s0) as [sb|] eqn:Es;
          [|discriminate].
        exists s0, sb. auto.
      - destruct (step i s0) as [s1|] eqn:Es; [|discriminate].
        destruct (IH s1 Hr) as (sa & sb & Ha & Hb & Hc).
        exists sa, sb. auto. }
    destruct Hsplit as (sa & sb & Ha & Hb & Hc).
    destruct (step_trace_extends _ _ _ Hb) as (d & Hd).
    destruct (run_trace_extends _ _ _ Hc) as (d' & Hd').
    apply step_moves in Hb.
    assert (Hpos : (1 <= occurrences is_notified_effect (trace sb))%nat).
    { inversion Hb; subst; cbn [trace emit co_switch set_interp_frame
        set_active_events set_mp_blocking_events set_co_current
        set_ev_frame set_halted t_mp_entrypoint enter_stmt];
        rewrite switched_trace, !occurrences_app;
        unfold notified_prefix; rewrite !occurrences_app;
        unfold occurrences; simpl; lia. }
    rewrite Hd', occurrences_app in Hocc. lia.
Qed.

(** ** Double await *)

(** C5 (amended).  [await] has no check of [mp_blocking_events] at its
    entry.  In every reachable state in which [mp_blocking_events] is not
    [mp_event_source_none] the interpreter is stopped in [await] and cannot
    call it again, so a second call can only come from code on the event
    cothread.  Such a call is fatal only on the slow path of a build with
    assertions: when no bit of the source is pending it overwrites
    [mp_blocking_events], its [co_switch (t_event)] returns at once, and
    the assertion fails.  When a bit of the source is pending the call
    clears the source and returns normally, with [mp_blocking_events] as
    it was; and with NDEBUG the slow path returns as well, with
    [mp_blocking_events] cleared. *)
Theorem double_await_outcome (s : Z) (st : State) :
  co_current st = t_event ->
  (Z.land (active_events st) s <> 0 ->
   await_in_event_context s st =
   Returned (set_active_events
               (Z.land (active_events st) (Z.lnot s)) st)) /\
  (Z.land (active_events st) s = 0 -> NDEBUG build = false ->
   await_in_event_context s st =
   Fatal (set_halted
            (emit assertion_failure
               (co_switch t_event (set_mp_blocking_events s st))))) /\
  (Z.land (active_events st) s = 0 -> NDEBUG build = true ->
   await_in_event_context s st =
   Returned (set_active_events
               (Z.land (active_events st) (Z.lnot s))
               (set_mp_blocking_events mp_event_source_none
                  (co_switch t_event (set_mp_blocking_events s st))))) /\
  (forall ins rxq txq st',
      run ins (power_on rxq txq) = Some st' ->
      mp_blocking_events st' <> mp_event_source_none ->
      co_current st' = t_event /\
      forall s', step (interp_await s') st' = None).
Proof.
  intros _. unfold await_in_event_context, await_enter.
  split; [|split; [|split]].
  - intros Hnz. apply truthy_true in Hnz. rewrite Hnz. reflexivity.
  - intros Hz Hnd. pose proof Hz as Ht. apply truthy_false in Ht.
    rewrite Ht.
    destruct (await_resume_cases s
                (co_switch t_event (set_mp_blocking_events s st)))
      as [(E & _)|(_ & [Hx|Hx])].
    + exact E.
    + congruence.
    + exfalso. apply Hx. exact Hz.
  - intros Hz Hnd. pose proof Hz as Ht. apply truthy_false in Ht.
    rewrite Ht.
    destruct (await_resume_cases s
                (co_switch t_event (set_mp_blocking_events s st)))
      as [(_ & Hx & _)|(E & _)].
    + congruence.
    + exact E.
  - intros ins rxq txq st' Hrun Hb.
    pose proof (reachable_consistent _ _ _ _ Hrun) as Hc.
    destruct (consistent_blocking_suspended st' Hc Hb) as (Hcur & _).
    split; [exact Hcur|].
    intros s'. destruct (step (interp_await s') st') as [x|] eqn:Es;
      [|reflexivity].
    apply step_await_inv in Es. destruct Es as (_ & Hmp & _). congruence.
Qed.

(** ** Straight runs of the entry routine *)

Lemma run_app ins1 : forall ins2 st,
  run (ins1 ++ ins2) st =
  match run ins1 st with
  | Some st1 => run ins2 st1
  | None => None
  end.
Proof.
  induction ins1 as [|i ins1 IH]; simpl; intros ins2 st; [reflexivity|].
  destruct (step i st); [apply IH|reflexivity].
Qed.

Lemma enter_all_trace pcs : forall st,
  trace (enter_all pcs st) = trace st ++ map stmt_effect pcs.
Proof.
  unfold enter_all.
  induction pcs as [|p pcs IH]; intros st; simpl.
  - rewrite app_nil_r. reflexivity.
  - rewrite IH. simpl. rewrite <- app_assoc. reflexivity.
Qed.

Lemma enter_all_control pcs : forall st,
  halted (enter_all pcs st) = halted st /\
  co_current (enter_all pcs st) = co_current st /\
  ev_frame (enter_all pcs st) = ev_frame st /\
  active_events (enter_all pcs st) = active_events st /\
  mp_blocking_events (enter_all pcs st) = mp_blocking_events st.
Proof.
  unfold enter_all.
  induction pcs as [|p pcs IH]; intros st; simpl; [auto|].
  destruct (IH (enter_stmt p st)) as (H1 & H2 & H3 & H4 & H5).
  rewrite H1, H2, H3, H4, H5. auto.
Qed.

(** When the calls of [pcs] return one after the other without an
    [await], the routine goes through [pcs]. *)
Lemma run_returns pcs : forall pc st,
  running pc st -> follows pc pcs ->
  run (repeat interp_return (List.length pcs)) st = Some (enter_all pcs st).
Proof.
  induction pcs as [|p pcs IH]; intros pc st Hr Hf; [reflexivity|].
  destruct Hf as (Hn & Hf).
  change (run (interp_return :: repeat interp_return (List.length pcs)) st =
          Some (enter_all pcs (enter_stmt p st))).
  simpl. rewrite (moves_step _ _ _ (moves_return_next pc p st Hr Hn)).
  apply (IH p); [|exact Hf].
  destruct Hr as (Hh & Hc & _). repeat split; assumption.
Qed.

Lemma running_enter_all pcs p pc st :
  running pc st -> running p (enter_all (pcs ++ [p]) st).
Proof.
  intros (Hh & Hc & _).
  destruct (enter_all_control (pcs ++ [p]) st) as (H1 & H2 & _).
  unfold running. rewrite H1, H2. repeat split; try assumption.
  unfold enter_all. rewrite fold_left_app. reflexivity.
Qed.

Lemma setup_run st :
  running at_printf_initialising st ->
  run (repeat interp_return 6) st = Some (enter_all setup_stmts st) /\
  running at_pyexec (enter_all setup_stmts st) /\
  ev_frame (enter_all setup_stmts st) = ev_frame st /\
  trace (enter_all setup_stmts st) =
  trace st ++ [call_mp_stack_ctrl_init; call_gc_init; call_mp_init;
               call_init_nfs; call_init_networking; stmt_effect at_pyexec].
Proof.
  intros Hr. split.
  - apply (run_returns setup_stmts at_printf_initialising st Hr).
    simpl. auto 10.
  - split; [exact (running_enter_all
                     [at_mp_stack_ctrl_init; at_gc_init; at_mp_init;
                      at_init_nfs; at_init_networking]
                     at_pyexec _ st Hr)|].
    split; [apply enter_all_control|].
    rewrite enter_all_trace. reflexivity.
Qed.

(** The state in which [init] leaves the system. *)
Lemma step_init_power_on rxq txq :
  step microkit_init (power_on rxq txq) =
  Some (enter_stmt at_printf_initialising
          (co_switch t_mp
             (set_ev_frame ev_in_init
                (init_before_switch (power_on rxq txq))))).
Proof.
  apply moves_step. apply moves_init; reflexivity.
Qed.

Lemma running_after_init st :
  halted st = false ->
  running at_printf_initialising
    (enter_stmt at_printf_initialising
       (co_switch t_mp (set_ev_frame ev_in_init (init_before_switch st)))).
Proof.
  intros Hh. unfold running. fields. auto.
Qed.

Lemma boot_run rxq txq :
  exists st,
    run (microkit_init :: repeat interp_return 6) (power_on rxq txq) =
    Some st /\
    running at_pyexec st /\
    trace st =
    init_trace ++ [printf_initialising; call_mp_stack_ctrl_init;
                   call_gc_init; call_mp_init; call_init_nfs;
                   call_init_networking; stmt_effect at_pyexec].
Proof.
  pose proof (running_after_init (power_on rxq txq) eq_refl) as Hr0.
  destruct (setup_run _ Hr0) as (Hrun & Hr & _ & Htr).
  eexists. split; [|split; [exact Hr|]].
  - cbn [run]. rewrite step_init_power_on. exact Hrun.
  - rewrite Htr, trace_enter_init.
    change (trace (power_on rxq txq)) with (@nil effect).
    rewrite app_nil_l, <- app_assoc. reflexivity.
Qed.

Lemma teardown_run st :
  running at_pyexec st ->
  exists st',
    run [interp_return; interp_return; interp_return] st = Some st' /\
    running at_printf_exited st' /\
    ev_frame st' = ev_frame st /\
    trace st' =
    trace st ++ [call_gc_sweep_all; call_mp_deinit; printf_exited].
Proof.
  intros Hr. exists (enter_all teardown_stmts st). split.
  - apply (run_returns teardown_stmts at_pyexec st Hr). simpl. auto.
  - split; [exact (running_enter_all [at_gc_sweep_all; at_mp_deinit]
                     at_printf_exited _ st Hr)|].
    split; [apply enter_all_control|].
    rewrite enter_all_trace. reflexivity.
Qed.

Lemma repl_restart_run st :
  EXEC_MODULE build = None ->
  running at_printf_exited st ->
  run (repeat interp_return 6) st = Some (enter_all setup_stmts st) /\
  running at_pyexec (enter_all setup_stmts st) /\
  ev_frame (enter_all setup_stmts st) = ev_frame st /\
  trace (enter_all setup_stmts st) =
  trace st ++ [call_mp_stack_ctrl_init; call_gc_init; call_mp_init;
               call_init_nfs; call_init_networking;
               call_pyexec_friendly_repl].
Proof.
  intros Hm Hr. split.
  - apply (run_returns setup_stmts at_printf_exited st Hr).
    simpl. rewrite Hm. auto 10.
  - split; [exact (running_enter_all
                     [at_mp_stack_ctrl_init; at_gc_init; at_mp_init;
                      at_init_nfs; at_init_networking]
                     at_pyexec _ st Hr)|].
    split; [apply enter_all_control|].
    rewrite enter_all_trace. simpl. rewrite Hm. reflexivity.
Qed.

Lemma frozen_exit_step m st :
  EXEC_MODULE build = Some m ->
  running at_printf_exited st -> event_stopped st ->
  exists st',
    step interp_return st = Some st' /\
    idle st' /\ interp_frame st' = mp_final /\
    trace st' =
    trace st ++ call_co_switch t_event
      :: match ev_frame st with
         | ev_in_notified => [call_mpnet_handle_notify]
         | _ => []
         end.
Proof.
  intros Hm Hr Hst.
  exists (event_resumed (co_switch t_event (set_interp_frame mp_final st))).
  split.
  - apply moves_step. eapply moves_return_final; [exact Hr| |exact Hst].
    simpl. rewrite Hm. reflexivity.
  - destruct Hr as (Hh & Hc & Hi).
    rewrite event_resumed_trace. unfold idle. fields.
    rewrite <- app_assoc. auto.
Qed.

Lemma frozen_whole_run m rxq txq :
  EXEC_MODULE build = Some m ->
  exists st,
    run (microkit_init :: repeat interp_return 10) (power_on rxq txq) =
    Some st /\
    idle st /\ interp_frame st = mp_final /\
    trace st =
    init_trace ++ [printf_initialising; call_mp_stack_ctrl_init;
                   call_gc_init; call_mp_init; call_init_nfs;
                   call_init_networking; call_pyexec_frozen_module m;
                   call_gc_sweep_all; call_mp_deinit; printf_exited;
                   call_co_switch t_event].
Proof.
  intros Hm.
  pose proof (running_after_init (power_on rxq txq) eq_refl) as Hr0.
  destruct (setup_run _ Hr0) as (Hrun6 & Hr6 & He6 & Htr6).
  destruct (teardown_run _ Hr6) as (st9 & Hrun3 & Hr9 & He9 & Htr9).
  assert (Hst9 : event_stopped st9).
  { left. rewrite He9, He6. reflexivity. }
  destruct (frozen_exit_step m st9 Hm Hr9 Hst9)
    as (st10 & Hstep & Hidle & Hfin & Htr10).
  exists st10. split; [|split; [exact Hidle|split; [exact Hfin|]]].
  - change (microkit_init :: repeat interp_return 10)
      with ([microkit_init] ++ repeat interp_return 6
              ++ [interp_return; interp_return; interp_return]
              ++ [interp_return]).
    rewrite run_app. cbn [run]. rewrite step_init_power_on.
    rewrite run_app, Hrun6, run_app, Hrun3. cbn [run]. rewrite Hstep.
    reflexivity.
  - rewrite Htr10, Htr9, Htr6, trace_enter_init, He9, He6.
    change (trace (power_on rxq txq)) with (@nil effect).
    cbn [ev_frame enter_stmt set_interp_frame emit co_switch
           set_co_current set_ev_frame].
    rewrite app_nil_l, <- !app_assoc.
    cbn [app stmt_effect]. rewrite Hm. reflexivity.
Qed.

Lemma frozen_pyexec_count m ins rxq txq st :
  EXEC_MODULE build = Some m ->
  run ins (power_on rxq txq) = Some st ->
  pyexec_calls (trace st) = pyexec_reached (interp_frame st) /\
  (pyexec_calls (trace st) <= 1)%nat.
Proof.
  intros Hm Hrun.
  pose proof (run_pyexec_once m ins (power_on rxq txq) st Hm
                (power_on_consistent rxq txq) eq_refl Hrun) as Hp.
  split; [exact Hp|]. rewrite Hp.
  destruct (interp_frame st) as [|pc|pc s|]; simpl; try lia;
    destruct pc; lia.
Qed.

Lemma frozen_final_calls m ins rxq txq st :
  EXEC_MODULE build = Some m ->
  run ins (power_on rxq txq) = Some st ->
  interp_frame st = mp_final ->
  pyexec_calls (trace st) = 1%nat /\
  filter is_entry_effect (trace st) =
  [printf_initialising; call_mp_stack_ctrl_init; call_gc_init;
   call_mp_init; call_init_nfs; call_init_networking;
   call_pyexec_frozen_module m; call_gc_sweep_all; call_mp_deinit;
   printf_exited].
Proof.
  intros Hm Hrun Hfin. split.
  - rewrite (run_pyexec_once m ins (power_on rxq txq) st Hm
               (power_on_consistent rxq txq) eq_refl Hrun), Hfin.
    reflexivity.
  - pose proof (run_entry_regular ins (power_on rxq txq) st
                  (power_on_consistent rxq txq) eq_refl Hrun) as Hreg.
    unfold entry_regular in Hreg. rewrite Hfin in Hreg. rewrite Hreg.
    unfold entry_calls.
    cbn [repeat concat stmt_position cycle_stmts firstn map app
           stmt_effect].
    rewrite Hm. reflexivity.
Qed.

(** C9.  The entry routine prints its banner, sets the runtime up
    ([mp_stack_ctrl_init], [gc_init], [mp_init], [init_nfs],
    [init_networking]) and enters the main loop; when the main loop
    returns it calls [gc_sweep_all] and [mp_deinit] and prints that it
    exited.  In a build without EXEC_MODULE the main loop is the REPL;
    after the teardown the routine is back at [start_repl], sets the
    runtime up again and enters the REPL again, and no reachable state has
    it at its final [co_switch (t_event)].  In a build with EXEC_MODULE
    the main loop is the frozen module; the routine runs it, tears down
    and switches to the event cothread; the trace holds no pyexec call
    before the routine reaches it and exactly one from then on, and at the
    end the calls of the routine are one whole pass in source order; from
    then on only notifications happen, none of them switches back, and the
    interpreter makes no further call. *)
Theorem interpreter_exit_by_build :
  (forall st,
      running at_printf_initialising st ->
      run (repeat interp_return 6) st = Some (enter_all setup_stmts st) /\
      running at_pyexec (enter_all setup_stmts st) /\
      ev_frame (enter_all setup_stmts st) = ev_frame st /\
      trace (enter_all setup_stmts st) =
      trace st ++ [call_mp_stack_ctrl_init; call_gc_init; call_mp_init;
                   call_init_nfs; call_init_networking;
                   stmt_effect at_pyexec]) /\
  (forall rxq txq,
      exists st,
        run (microkit_init :: repeat interp_return 6) (power_on rxq txq) =
        Some st /\
        running at_pyexec st /\
        trace st =
        init_trace ++ [printf_initialising; call_mp_stack_ctrl_init;
                       call_gc_init; call_mp_init; call_init_nfs;
                       call_init_networking; stmt_effect at_pyexec]) /\
  (forall st,
      running at_pyexec st ->
      exists st',
        run [interp_return; interp_return; interp_return] st = Some st' /\
        running at_printf_exited st' /\
        ev_frame st' = ev_frame st /\
        trace st' =
        trace st ++ [call_gc_sweep_all; call_mp_deinit; printf_exited]) /\
  (EXEC_MODULE build = None ->
   stmt_effect at_pyexec = call_pyexec_friendly_repl /\
   (forall st,
       running at_printf_exited st ->
       step interp_return st = Some (enter_stmt at_mp_stack_ctrl_init st) /\
       running at_mp_stack_ctrl_init (enter_stmt at_mp_stack_ctrl_init st) /\
       trace (enter_stmt at_mp_stack_ctrl_init st) =
       trace st ++ [call_mp_stack_ctrl_init]) /\
   (forall st,
       running at_printf_exited st ->
       run (repeat interp_return 6) st = Some (enter_all setup_stmts st) /\
       running at_pyexec (enter_all setup_stmts st) /\
       ev_frame (enter_all setup_stmts st) = ev_frame st /\
       trace (enter_all setup_stmts st) =
       trace st ++ [call_mp_stack_ctrl_init; call_gc_init; call_mp_init;
                    call_init_nfs; call_init_networking;
                    call_pyexec_friendly_repl]) /\
   (forall ins rxq txq st,
       run ins (power_on rxq txq) = Some st ->
       interp_frame st <> mp_final)) /\
  (forall m,
      EXEC_MODULE build = Some m ->
      stmt_effect at_pyexec = call_pyexec_frozen_module m /\
      (forall st,
          running at_printf_exited st -> event_stopped st ->
          exists st',
            step interp_return st = Some st' /\
            idle st' /\ interp_frame st' = mp_final /\
            trace st' =
            trace st ++ call_co_switch t_event
              :: match ev_frame st with
                 | ev_in_notified => [call_mpnet_handle_notify]
                 | _ => []
                 end) /\
      (forall rxq txq,
          exists st,
            run (microkit_init :: repeat interp_return 10)
                (power_on rxq txq) = Some st /\
            idle st /\ interp_frame st = mp_final /\
            trace st =
            init_trace ++ [printf_initialising; call_mp_stack_ctrl_init;
                           call_gc_init; call_mp_init; call_init_nfs;
                           call_init_networking;
                           call_pyexec_frozen_module m; call_gc_sweep_all;
                           call_mp_deinit; printf_exited;
                           call_co_switch t_event]) /\
      (forall ins rxq txq st,
          run ins (power_on rxq txq) = Some st ->
          pyexec_calls (trace st) = pyexec_reached (interp_frame st) /\
          (pyexec_calls (trace st) <= 1)%nat) /\
      (forall ins rxq txq st,
          run ins (power_on rxq txq) = Some st ->
          interp_frame st = mp_final ->
          pyexec_calls (trace st) = 1%nat /\
          filter is_entry_effect (trace st) =
          [printf_initialising; call_mp_stack_ctrl_init; call_gc_init;
           call_mp_init; call_init_nfs; call_init_networking;
           call_pyexec_frozen_module m; call_gc_sweep_all; call_mp_deinit;
           printf_exited]) /\
      (forall ins rxq txq st ins' st',
          run ins (power_on rxq txq) = Some st ->
          interp_frame st = mp_final ->
          run ins' st = Some st' ->
          (forall i, In i ins' -> exists ch, i = microkit_notified ch) /\
          interp_frame st' = mp_final /\ co_current st' = t_event /\
          exists d, trace st' = trace st ++ d /\
                    forallb is_notified_effect d = true)).
Proof.
  split; [exact setup_run|].
  split; [exact boot_run|].
  split; [exact teardown_run|].
  split.
  { intros Hm. split; [simpl; rewrite Hm; reflexivity|]. split.
    - intros st (Hh & Hc & Hi). split.
      + rewrite (step_return_eq at_printf_exited st Hh Hc Hi). simpl.
        rewrite Hm. reflexivity.
      + unfold running. simpl. auto.
    - split; [intros st; apply repl_restart_run; exact Hm|].
      intros ins rxq txq st Hrun Hfin.
      pose proof (reachable_consistent _ _ _ _ Hrun) as (_ & Hf).
      rewrite Hfin in Hf. destruct Hf as (_ & _ & _ & Hne).
      apply Hne. exact Hm. }
  intros m Hm. split; [simpl; rewrite Hm; reflexivity|].
  split; [intros st; apply (frozen_exit_step m); exact Hm|].
  split; [intros rxq txq; apply (frozen_whole_run m); exact Hm|].
  split; [intros ins rxq txq st; apply (frozen_pyexec_count m); exact Hm|].
  split; [intros ins rxq txq st; apply (frozen_final_calls m); exact Hm|].
  intros ins rxq txq st ins' st' Hrun Hfin Hrun'.
  eapply run_after_final; [|exact Hfin|exact Hrun'].
  eapply reachable_consistent; exact Hrun.
Qed.

End Component.

(** ** Builds with and without NDEBUG *)

Lemma step_with_NDEBUG (b : Build) (cfg : Config) (i : input) (st : State) :
  consistent b st ->
  step (with_NDEBUG true b) cfg i st = step (with_NDEBUG false b) cfg i st.
Proof.
  intros (Hh & Hf). destruct i as [|ch|s|].
  - unfold step. rewrite Hh.
    destruct (co_current st); [|reflexivity].
    destruct (ev_frame st); reflexivity.
  - unfold step. rewrite Hh.
    destruct (co_current st) eqn:Hc; [|reflexivity].
    destruct (ev_frame st) eqn:He; try reflexivity.
    unfold notified.
    change (notified_enter (with_NDEBUG true b) cfg ch st)
      with (notified_enter (with_NDEBUG false b) cfg ch st).
    rewrite notified_enter_eq. cbv zeta.
    set (st1 := notified_switch (with_NDEBUG false b) cfg ch
                  (pumped st)).
    assert (Hi : interp_frame st1 = interp_frame st)
      by (unfold st1; rewrite switch_interp_frame; reflexivity).
    assert (Hb : mp_blocking_events st1 = mp_blocking_events st)
      by (unfold st1; rewrite switch_blocking; reflexivity).
    destruct (truthy (Z.land (active_events st1) (mp_blocking_events st1)))
      eqn:Et; [|reflexivity].
    unfold resume_mp. cbn [interp_frame co_switch emit set_co_current
                             set_ev_frame].
    rewrite Hi.
    destruct (interp_frame st) as [|pc|pc s|]; try reflexivity.
    destruct Hf as (_ & _ & Hbs & _).
    rewrite Hb, Hbs in Et.
    unfold await_resume.
    cbn [NDEBUG with_NDEBUG active_events co_switch emit set_co_current
           set_ev_frame negb andb].
    rewrite Et. reflexivity.
  - reflexivity.
  - reflexivity.
Qed.

Lemma run_with_NDEBUG (b : Build) (cfg : Config) (ins : list input) :
  forall st,
    consistent b st ->
    run (with_NDEBUG true b) cfg ins st =
    run (with_NDEBUG false b) cfg ins st.
Proof.
  induction ins as [|i ins IH]; intros st Hc; simpl; [reflexivity|].
  rewrite (step_with_NDEBUG b cfg i st Hc).
  destruct (step (with_NDEBUG false b) cfg i st) as [st1|] eqn:Es;
    [|reflexivity].
  apply IH.
  exact (step_consistent (with_NDEBUG false b) cfg i st st1 Hc Es).
Qed.

(** X12.  The assertion in [await] never decides anything: on every
    sequence of inputs from power-on, a build with NDEBUG and the same
    build without it go through the same states and leave the same
    trace. *)
Theorem assertion_is_redundant (b : Build) (cfg : Config)
        (ins : list input) (rxq txq : SerialQueue.handle) :
  run (with_NDEBUG true b) cfg ins (power_on rxq txq) =
  run (with_NDEBUG false b) cfg ins (power_on rxq txq).
Proof.
  apply run_with_NDEBUG. apply power_on_consistent.
Qed.

(** ** The theorems on the sample board *)

(** C1 on the sample board: the interpreter waits for the timer (bit 0)
    while the serial bit is pending; a serial notification and one on an
    unknown channel leave it waiting; one timer notification resumes it. *)
Lemma await_slow_path_witness :
  Z.land (active_events sample_running) 1 = 0 /\
  exists st1 st2 st3,
    step repl_build sample_cfg (interp_await 1) sample_running = Some st1 /\
    run repl_build sample_cfg (map microkit_notified [8; 99]) st1 = Some st2 /\
    step repl_build sample_cfg (microkit_notified 1) st2 = Some st3 /\
    running at_pyexec st3 /\
    mp_blocking_events st3 = mp_event_source_none.
Proof.
  split; [reflexivity|].
  destruct (await_slow_path repl_build sample_cfg sample_running 1 at_pyexec
              [8; 99] 1)
    as (st1 & st2 & st3 & H1 & _ & _ & H2 & _ & H3 & Hr & _ & Hb & _).
  - repeat split; reflexivity.
  - right; reflexivity.
  - reflexivity.
  - reflexivity.
  - discriminate.
  - repeat constructor; intros s' Hs'; vm_compute in Hs';
      inversion Hs'; reflexivity.
  - exists st1, st2, st3. auto.
Defined.

(** C2 on the sample board: the serial bit is pending and the interpreter
    waits for it. *)
Lemma await_fast_path_witness :
  Z.land (active_events sample_running) 2 <> 0 /\
  step repl_build sample_cfg (interp_await 2) sample_running =
  Some (set_active_events 0 sample_running).
Proof.
  split; [discriminate|].
  destruct (await_fast_path repl_build sample_cfg sample_running 2 at_pyexec)
    as (_ & H & _).
  - reflexivity.
  - reflexivity.
  - reflexivity.
  - discriminate.
  - exact H.
Defined.

(** C3 on the sample board: the serial bit survives three notifications
    while the interpreter waits for the timer on another channel's bit. *)
Lemma events_never_lost_witness :
  match run repl_build sample_cfg (map microkit_notified [8; 99; 7])
            sample_waiting with
  | Some st' => Z.testbit (active_events st') 1 = true
  | None => False
  end.
Proof.
  destruct (run repl_build sample_cfg (map microkit_notified [8; 99; 7])
              sample_waiting) as [st'|] eqn:E.
  - destruct (events_never_lost repl_build sample_cfg) as (_ & _ & H & _).
    apply (H [8; 99; 7] sample_waiting st' 1 E); reflexivity.
  - vm_compute in E. discriminate.
Defined.

(** C4 on the sample board: a timer notification resumes the waiting
    interpreter, which later waits for the NFS event; the trace of the
    whole call is pumps, switch, switch back, [mpnet_handle_notify]. *)
Lemma notified_step_order_witness :
  match step repl_build sample_cfg (microkit_notified 1) sample_waiting with
  | Some st' =>
      match run repl_build sample_cfg [interp_return; interp_await 4] st' with
      | Some st'' =>
          trace (pumped sample_waiting) =
          trace sample_waiting ++ [call_process_rx; call_pyb_lwip_poll;
                                   call_fs_process_completions]
      | None => False
      end
  | None => False
  end.
Proof.
  destruct (step repl_build sample_cfg (microkit_notified 1) sample_waiting)
    as [st'|] eqn:E1; [|vm_compute in E1; discriminate].
  destruct (run repl_build sample_cfg [interp_return; interp_await 4] st')
    as [st''|] eqn:E2.
  - destruct (notified_step_order repl_build sample_cfg 1 sample_waiting st'
                [interp_return; interp_await 4] st'' E1) as (H & _).
    + intros ch [Hin|[Hin|[]]]; discriminate.
    + exact E2.
    + exact H.
  - vm_compute in E1. inversion E1; subst st'.
    vm_compute in E2. discriminate.
Defined.

(** C5, the claim as stated, fails in the state the sample inputs lead to.
    [mp_blocking_events] holds the timer (the interpreter is stopped in
    [await] on it), the event cothread runs and the serial bit is pending:
    a whole call of [await] on the serial source finds the bit, clears it
    and returns.  Nothing halts and [mp_blocking_events] still holds the
    timer. *)
Lemma double_await_not_fatal :
  match run repl_build sample_cfg sample_inputs sample_power_on with
  | Some st =>
      mp_blocking_events st <> mp_event_source_none /\
      co_current st = t_event /\
      exists st',
        await_in_event_context repl_build 2 st = Returned st' /\
        halted st' = false /\
        mp_blocking_events st' = mp_blocking_events st
  | None => False
  end.
Proof.
  vm_compute. split; [discriminate|]. split; [reflexivity|].
  eexists. repeat split.
Qed.

(** C5 (amended) on the sample board: with the timer awaited and the
    serial bit pending, [await] on the serial source returns, and [await]
    on the NFS source, which is not pending, ends in the failed
    assertion. *)
Lemma double_await_outcome_witness :
  co_current sample_waiting = t_event /\
  await_in_event_context repl_build 2 sample_waiting =
  Returned (set_active_events 0 sample_waiting) /\
  exists st',
    await_in_event_context repl_build 4 sample_waiting = Fatal st' /\
    halted st' = true /\ mp_blocking_events st' = 4.
Proof.
  destruct (double_await_outcome repl_build sample_cfg 2 sample_waiting
              eq_refl) as (H2 & _).
  destruct (double_await_outcome repl_build sample_cfg 4 sample_waiting
              eq_refl) as (_ & H4 & _).
  split; [reflexivity|]. split.
  - apply H2. discriminate.
  - eexists. split; [apply H4; reflexivity|]. split; reflexivity.
Defined.

(** C6 on the sample board, with the tags of the sample configuration. *)
Lemma awaited_event_discipline_witness :
  match run repl_build sample_cfg sample_inputs sample_power_on with
  | Some st =>
      mp_blocking_events st = mp_event_source_none \/
      In (mp_blocking_events st) [1; 2; 4; 8; 16]
  | None => False
  end.
Proof.
  destruct (run repl_build sample_cfg sample_inputs sample_power_on)
    as [st|] eqn:E; [|vm_compute in E; discriminate].
  destruct (awaited_event_discipline repl_build sample_cfg
              (fun s => In s [1; 2; 4; 8; 16]) sample_inputs
              (SerialQueue.empty_handle 4) (SerialQueue.empty_handle 4) st)
    as (H & _).
  - exact E.
  - intros s [Hin|[Hin|[Hin|[]]]]; try discriminate.
    inversion Hin; subst. simpl. auto.
  - exact H.
Defined.

(** C7 on the sample board: channel 99 is no case label. *)
Lemma unknown_channel_ignored_witness :
  ~ In 99 (case_labels repl_build sample_cfg) /\
  match run repl_build sample_cfg sample_inputs sample_power_on with
  | Some st =>
      exists st',
        step repl_build sample_cfg (microkit_notified 99) st = Some st' /\
        active_events st' = active_events st
  | None => False
  end.
Proof.
  assert (Hnot : ~ In 99 (case_labels repl_build sample_cfg)).
  { simpl. intros H.
    repeat match goal with
           | H : _ \/ _ |- _ => destruct H
           end; try discriminate; contradiction. }
  split; [exact Hnot|].
  destruct (run repl_build sample_cfg sample_inputs sample_power_on)
    as [st|] eqn:E; [|vm_compute in E; discriminate].
  destruct (unknown_channel_ignored repl_build sample_cfg 99 Hnot)
    as (_ & _ & H).
  destruct (H sample_inputs (SerialQueue.empty_handle 4)
              (SerialQueue.empty_handle 4) st E)
    as (st' & Hs & _ & Ha & _).
  - vm_compute in E. inversion E; subst st. repeat split; reflexivity.
  - exists st'. auto.
Defined.

(** C8 on the sample board: NUM_ENTRIES is 4 and each free ring of
    capacity 4 holds 3 seeded descriptors after [init]. *)
Lemma init_seeds_free_rings_witness :
  exists st,
    step frozen_build sample_cfg microkit_init sample_power_on = Some st /\
    List.length (free_slots rx_queue st) = 3%nat /\
    List.length (free_slots tx_queue st) = 3%nat /\
    List.length
      (filter (is_enqueue_free rx_queue) (trace st)) = 3%nat /\
    List.length
      (filter (is_enqueue_free tx_queue) (trace st)) = 3%nat.
Proof.
  destruct (init_seeds_free_rings frozen_build sample_cfg
              (SerialQueue.empty_handle 4) (SerialQueue.empty_handle 4))
    as (st & Hs & _ & Hrx & Htx & Hn & _ & _ & Hsrx & Hstx).
  destruct Hsrx as (_ & Hlrx & _); [reflexivity|vm_compute; lia|].
  destruct Hstx as (_ & Hltx & _); [reflexivity|vm_compute; lia|].
  exists st. split; [exact Hs|].
  rewrite Hlrx, Hltx, Hrx, Htx, !length_map, Hn.
  repeat split; reflexivity.
Defined.

(** C9 on the two sample builds: the REPL build restarts after an exit,
    the frozen-module build runs once from power-on to the final switch. *)
Lemma interpreter_exit_by_build_witness :
  (exists st',
      run repl_build sample_cfg (repeat interp_return 6)
          (enter_stmt repl_build at_printf_exited sample_running) =
      Some st' /\
      running at_pyexec st') /\
  (exists st,
      run frozen_build sample_cfg (microkit_init :: repeat interp_return 10)
          sample_power_on = Some st /\
      idle st /\ interp_frame st = mp_final).
Proof.
  split.
  - destruct (interpreter_exit_by_build repl_build sample_cfg)
      as (_ & _ & _ & H & _).
    destruct (H eq_refl) as (_ & _ & H' & _).
    destruct (H' (enter_stmt repl_build at_printf_exited sample_running))
      as (Hs & Hr & _).
    + repeat split; reflexivity.
    + eexists. split; [exact Hs|exact Hr].
  - destruct (interpreter_exit_by_build frozen_build sample_cfg)
      as (_ & _ & _ & _ & H).
    destruct (H "main"%string eq_refl) as (_ & _ & H' & _).
    destruct (H' (SerialQueue.empty_handle 4) (SerialQueue.empty_handle 4))
      as (st & Hs & Hi & Hf & _).
    exists st. auto.
Defined.

(** C10 on the sample board: channel 2 is ETH_RX_CH. *)
Lemma ethernet_channels_raise_nothing_witness :
  NoDup (case_labels frozen_build sample_cfg) /\
  match run frozen_build sample_cfg sample_inputs sample_power_on with
  | Some st =>
      exists st',
        step frozen_build sample_cfg (microkit_notified 2) st = Some st' /\
        active_events st' = active_events st /\
        interp_frame st' = interp_frame st
  | None => False
  end.
Proof.
  assert (Hnd : NoDup (case_labels frozen_build sample_cfg)).
  { simpl. repeat constructor; simpl; intros H;
      repeat match goal with
             | H : _ \/ _ |- _ => destruct H
             end; try discriminate; contradiction. }
  split; [exact Hnd|].
  destruct (run frozen_build sample_cfg sample_inputs sample_power_on)
    as [st|] eqn:E; [|vm_compute in E; discriminate].
  destruct (ethernet_channels_raise_nothing frozen_build sample_cfg 2 Hnd)
    as (_ & _ & _ & H); [left; reflexivity|].
  destruct (H sample_inputs (SerialQueue.empty_handle 4)
              (SerialQueue.empty_handle 4) st E)
    as (st' & Hs & _ & Ha & _ & Hi & _).
  - vm_compute in E. inversion E; subst st. repeat split; reflexivity.
  - exists st'. auto.
Defined.

(** ** The further properties on the sample board *)

Lemma no_missed_wakeup_witness :
  match run repl_build sample_cfg sample_session sample_power_on with
  | Some st =>
      co_current st = t_event /\
      Z.land (active_events st) (mp_blocking_events st) = 0
  | None => False
  end.
Proof.
  destruct (run repl_build sample_cfg sample_session sample_power_on)
    as [st|] eqn:E; [|vm_compute in E; discriminate].
  assert (Hc : co_current st = t_event)
    by (vm_compute in E; inversion E; reflexivity).
  split; [exact Hc|].
  exact (proj1 (no_missed_wakeup repl_build sample_cfg sample_session
                  (SerialQueue.empty_handle 4) (SerialQueue.empty_handle 4)
                  st E Hc)).
Defined.

Lemma never_stuck_witness :
  match run repl_build sample_cfg sample_session sample_power_on with
  | Some st =>
      halted st = false /\
      exists st', step repl_build sample_cfg (microkit_notified 3) st = Some st'
  | None => False
  end.
Proof.
  destruct (run repl_build sample_cfg sample_session sample_power_on)
    as [st|] eqn:E; [|vm_compute in E; discriminate].
  destruct (never_stuck repl_build sample_cfg sample_session
              (SerialQueue.empty_handle 4) (SerialQueue.empty_handle 4) st E)
    as (Hh & _ & Hn & _).
  split; [exact Hh|]. apply Hn.
  vm_compute in E. inversion E. reflexivity.
Defined.

Lemma notify_bookkeeping_balanced_witness :
  match run repl_build sample_cfg sample_session sample_power_on with
  | Some st =>
      occurrences is_mpnet_handle_notify (trace st) =
      occurrences is_process_rx (trace st)
  | None => False
  end.
Proof.
  destruct (run repl_build sample_cfg sample_session sample_power_on)
    as [st|] eqn:E; [|vm_compute in E; discriminate].
  destruct (notify_bookkeeping_balanced repl_build sample_cfg sample_session
              (SerialQueue.empty_handle 4) (SerialQueue.empty_handle 4) st E)
    as (_ & _ & _ & H).
  apply H. vm_compute in E. inversion E. reflexivity.
Defined.

Lemma switches_alternate_witness :
  match run repl_build sample_cfg sample_session sample_power_on with
  | Some st =>
      exists n, switch_targets (trace st) = ping_pong t_event n /\
                co_current st = after_switches t_event n
  | None => False
  end.
Proof.
  destruct (run repl_build sample_cfg sample_session sample_power_on)
    as [st|] eqn:E; [|vm_compute in E; discriminate].
  exact (switches_alternate repl_build sample_cfg sample_session
           (SerialQueue.empty_handle 4) (SerialQueue.empty_handle 4) st E).
Defined.

Lemma notifications_coalesce_witness :
  parked sample_waiting /\
  exists st1 st2,
    run repl_build sample_cfg (map microkit_notified [8; 7; 8; 99])
        sample_waiting = Some st1 /\
    run repl_build sample_cfg (map microkit_notified [99; 7; 8])
        sample_waiting = Some st2 /\
    active_events st1 = active_events st2.
Proof.
  assert (Hp : parked sample_waiting) by (repeat split; reflexivity).
  split; [exact Hp|].
  destruct (notifications_coalesce repl_build sample_cfg sample_waiting
              [8; 7; 8; 99] [99; 7; 8] Hp)
    as (st1 & st2 & E1 & E2 & _ & Ha & _).
  - repeat constructor; intros s' Hs'; vm_compute in Hs';
      inversion Hs'; reflexivity.
  - repeat constructor; intros s' Hs'; vm_compute in Hs';
      inversion Hs'; reflexivity.
  - intros c; simpl; intuition.
  - exists st1, st2. auto.
Defined.

Lemma event_consumed_once_witness :
  Z.land (active_events sample_running) 2 <> 0 /\
  exists st2,
    run repl_build sample_cfg [interp_await 2; interp_await 2]
        sample_running = Some st2 /\
    waiting at_pyexec 2 st2.
Proof.
  split; [discriminate|].
  destruct (event_consumed_once repl_build sample_cfg sample_running 2
              at_pyexec)
    as (st1 & st2 & _ & _ & _ & _ & Hw & Hr).
  - repeat split; reflexivity.
  - right; reflexivity.
  - discriminate.
  - exists st2. auto.
Defined.

Lemma wakeup_exact_witness :
  waiting at_pyexec 1 sample_waiting /\
  (exists st', step repl_build sample_cfg (microkit_notified 7)
                    sample_waiting = Some st' /\
               waiting at_pyexec 1 st') /\
  (exists st', step repl_build sample_cfg (microkit_notified 1)
                    sample_waiting = Some st' /\
               running at_pyexec st').
Proof.
  assert (Hw : waiting at_pyexec 1 sample_waiting)
    by (repeat split; reflexivity).
  split; [exact Hw|]. split.
  - destruct (wakeup_exact repl_build sample_cfg sample_waiting 1 at_pyexec
                7 Hw) as (st' & Es & _ & _ & Hev).
    exists st'. split; [exact Es|]. apply Hev.
    vm_compute in Es. inversion Es. reflexivity.
  - destruct (wakeup_exact repl_build sample_cfg sample_waiting 1 at_pyexec
                1 Hw) as (st' & Es & _ & Hmp & _).
    exists st'. split; [exact Es|]. apply Hmp.
    vm_compute in Es. inversion Es. reflexivity.
Defined.

Lemma mask_within_sources_witness :
  match run frozen_build sample_cfg sample_session sample_power_on with
  | Some st =>
      Z.land (active_events st)
             (Z.lnot (all_sources frozen_build sample_cfg)) = 0
  | None => False
  end.
Proof.
  destruct (run frozen_build sample_cfg sample_session sample_power_on)
    as [st|] eqn:E; [|vm_compute in E; discriminate].
  exact (proj2 (mask_within_sources frozen_build sample_cfg sample_session
                  (SerialQueue.empty_handle 4) (SerialQueue.empty_handle 4)
                  st E)).
Defined.

(** In the REPL build of the sample board the I2C case is compiled out:
    a wait for the I2C source (16) never ends, nor does a wait for the
    empty mask. *)
Lemma await_unraised_source_never_returns_witness :
  match run repl_build sample_cfg [microkit_init] sample_power_on with
  | Some st =>
      Z.land (all_sources repl_build sample_cfg) 16 = 0 /\
      (exists pc st',
          run repl_build sample_cfg
              (interp_await 16 :: map microkit_notified [10; 8; 1; 7])
              st = Some st' /\
          waiting pc 16 st') /\
      (exists pc st',
          run repl_build sample_cfg
              (interp_await 0 :: map microkit_notified [10; 8; 1; 7])
              st = Some st' /\
          waiting pc 0 st')
  | None => False
  end.
Proof.
  destruct (run repl_build sample_cfg [microkit_init] sample_power_on)
    as [st|] eqn:E; [|vm_compute in E; discriminate].
  assert (Hc : co_current st = t_mp)
    by (vm_compute in E; inversion E; reflexivity).
  split; [reflexivity|]. split.
  - destruct (await_unraised_source_never_returns repl_build sample_cfg
                [microkit_init] (SerialQueue.empty_handle 4)
                (SerialQueue.empty_handle 4) st 16 [10; 8; 1; 7] E Hc)
      as (pc & st' & _ & Hr & Hw); [reflexivity|].
    exists pc, st'. auto.
  - destruct (await_unraised_source_never_returns repl_build sample_cfg
                [microkit_init] (SerialQueue.empty_handle 4)
                (SerialQueue.empty_handle 4) st 0 [10; 8; 1; 7] E Hc)
      as (pc & st' & _ & Hr & Hw); [reflexivity|].
    exists pc, st'. auto.
Defined.

Lemma entry_routine_call_order_witness :
  match run repl_build sample_cfg
            [microkit_init; interp_return; interp_return; interp_return;
             interp_return; interp_return; interp_return; interp_return;
             interp_return; interp_return; interp_return; interp_return]
            sample_power_on with
  | Some st =>
      interp_frame st = mp_in at_gc_init /\
      exists n,
        filter is_entry_effect (trace st) =
        entry_calls repl_build n at_gc_init
  | None => False
  end.
Proof.
  match goal with
  | |- match run ?b ?c ?ins ?p with _ => _ end =>
      destruct (run b c ins p) as [st|] eqn:E;
        [pose proof (entry_routine_call_order b c ins
                       (SerialQueue.empty_handle 4)
                       (SerialQueue.empty_handle 4) st E) as H
        |vm_compute in E; discriminate]
  end.
  assert (Hi : interp_frame st = mp_in at_gc_init)
    by (vm_compute in E; inversion E; reflexivity).
  split; [exact Hi|].
  rewrite Hi in H. destruct H as (n & H & _).
  exists n. exact H.
Defined.

Lemma seeded_buffers_disjoint_witness :
  NoDup (map (seed_buffer sample_cfg (serial_rx_data sample_cfg))
             (seed_indices sample_cfg)) /\
  seed_buffer sample_cfg (serial_rx_data sample_cfg) 0
  + BUFFER_SIZE sample_cfg
  <= seed_buffer sample_cfg (serial_rx_data sample_cfg) 1.
Proof.
  destruct (seeded_buffers_disjoint sample_cfg (serial_rx_data sample_cfg))
    as (_ & Hlt & Hnd).
  - reflexivity.
  - discriminate.
  - reflexivity.
  - discriminate.
  - split; [exact Hnd|].
    apply Hlt; [left; reflexivity|right; left; reflexivity|reflexivity].
Defined.

Lemma no_notification_before_first_wait_witness :
  match run repl_build sample_cfg
            [microkit_init; interp_return; interp_return] sample_power_on with
  | Some st =>
      ev_frame st = ev_in_init /\
      occurrences is_notified_effect (trace st) = 0%nat
  | None => False
  end.
Proof.
  destruct (run repl_build sample_cfg
              [microkit_init; interp_return; interp_return] sample_power_on)
    as [st|] eqn:E; [|vm_compute in E; discriminate].
  assert (He : ev_frame st = ev_in_init)
    by (vm_compute in E; inversion E; reflexivity).
  split; [exact He|].
  exact (proj1 (no_notification_before_first_wait repl_build sample_cfg _
                  (SerialQueue.empty_handle 4) (SerialQueue.empty_handle 4)
                  st E (or_intror He))).
Defined.
